(** * Norway topo-bathymetry mosaic: the notebook [code/01_process_raw_data.ipynb]

    A shallow embedding of the three working cells of the notebook

    - cell 4, "Fix data issues": the loop that rounds the x and y columns of
      every raw [.xyz] tile and writes the tile to the [rounded] folder;
    - cell 5, "Merge": the bathymetry tiles are merged onto the canvas, the
      depths are multiplied by -1 and the mosaic is written;
    - cell 6, "Combine": the statement that is meant to set negative
      topography to zero, the merge of bathymetry and topography with
      [method="first"], and the writing of the result.

    Array values are IEEE 754 binary floating-point numbers, modelled by the
    Standard Library's [spec_float] (one NaN, no payload).  Masked loading
    ([mask_and_scale=True]) turns every missing pixel into NaN, so NaN is the
    in-memory missing value; [no_data_val] is only stamped on the file.
    A [spec_float] value carries the mantissa and the exponent of its format:
    the same number has one encoding as float32 and another as float64, and
    [astype] goes from the one to the other.

    Part I holds the definitions, Part II the lemmas and theorems. *)

From Stdlib Require Import ZArith Lia Bool SpecFloat QArith Qabs.
From Stdlib Require Import Ascii DecimalString DecimalZ DecimalPos.
From stdpp Require Import gmap strings list.

Local Open Scope Z_scope.

(** * Part I: definitions *)

(** ** Configuration cell *)

Module Config.

Definition res : Z := 40.
Definition epsg : Z := 25833.
Definition no_data_val : Z := -9999.
(** xmin, ymin, xmax, ymax *)
Definition bbox : Z * Z * Z * Z := (-80000, 6440000, 1122000, 7950000).
Definition base_dir : string :=
  "/home/jovyan/shared/common/01_datasets/spatial/norway_bathymetry_50m".

End Config.

(** ** numpy values and element-wise operations *)

Module Numpy.

(** A floating-point dtype: [prec] bits of mantissa (the implicit one
    included) and [emax], the exponent of the infinities. *)
Record dtype : Type := { prec : Z; emax : Z }.

Definition float32 : dtype := {| prec := 24; emax := 128 |}.
Definition float64 : dtype := {| prec := 53; emax := 1024 |}.

(** [dst_dtype = "float32"] of the configuration cell. *)
Definition dst_dtype : dtype := float32.

(** The formats of IEEE 754 all have at least two bits of mantissa and an
    exponent range wider than the mantissa. *)
Definition ieee_format (t : dtype) : Prop := 1 < prec t /\ prec t < emax t.

(** [v] is a value of dtype [t]: its mantissa and exponent are canonical. *)
Definition has_dtype (t : dtype) (v : spec_float) : Prop :=
  valid_binary (prec t) (emax t) v = true.

(** [np.isnan] *)
Definition isnan (v : spec_float) : bool :=
  match v with S754_nan => true | _ => false end.

(** [np.isfinite] *)
Definition isfinite (v : spec_float) : bool :=
  match v with S754_nan | S754_infinity _ => false | _ => true end.

(** The in-memory missing value after masked loading. *)
Definition missing : spec_float := S754_nan.

(** A Python integer scalar used in an expression with an array of dtype
    [t] is converted to that dtype. *)
Definition scalar (t : dtype) (n : Z) : spec_float :=
  binary_normalize (prec t) (emax t) n 0 false.

(** The float64 nearest to [n / d], for integers that are float64
    themselves: 10.4 is [ratio64 104 10]. *)
Definition ratio64 (n d : Z) : spec_float :=
  SFdiv 53 1024 (scalar float64 n) (scalar float64 d).

(** A band of a raster: rows of pixels. *)
Abbreviation ndarray := (list (list spec_float)).

(** [a[r, c]], [None] outside the array. *)
Definition pixel (a : ndarray) (r c : nat) : option spec_float :=
  a !! r ≫= (.!! c).

(** [a * n] *)
Definition mul_scalar (t : dtype) (a : ndarray) (n : Z) : ndarray :=
  fmap (M:=list) (fun v => SFmul (prec t) (emax t) v (scalar t n)) <$> a.

(** [a < n], the boolean mask *)
Definition less_scalar (t : dtype) (a : ndarray) (n : Z) : list (list bool) :=
  fmap (M:=list) (fun v => SFltb v (scalar t n)) <$> a.

(** [a[mask] = n] *)
Definition setitem_mask (t : dtype) (a : ndarray) (mask : list (list bool))
    (n : Z) : ndarray :=
  zip_with (zip_with (fun v (b : bool) => if b then scalar t n else v)) a mask.

(** [a.astype(t)]: conversion to the format [t], rounding to nearest, ties to
    even; zeros, infinities and NaN keep their class. *)
Definition astype_value (t : dtype) (v : spec_float) : spec_float :=
  match v with
  | S754_finite s m e => binary_round (prec t) (emax t) s m e
  | _ => v
  end.

Definition astype (t : dtype) (a : ndarray) : ndarray :=
  fmap (M:=list) (astype_value t) <$> a.

(** [np.full((rows, cols), v)] *)
Definition full (rows cols : nat) (v : spec_float) : ndarray :=
  replicate rows (replicate cols v).

End Numpy.

(** ** Value Transform *)

Module ValueTransform.
Import Numpy.

(** Cell 5: [bathy_ds.data = bathy_ds.data * -1] *)
Definition sign_inversion (t : dtype) (data : ndarray) : ndarray :=
  mul_scalar t data (-1).

(** The masked assignment [a[a < 0] = 0] on an array [a].  In cell 6 it is
    written [dem_ds.data[dem_ds.data < 0] = 0]; the array it acts on there
    is the one that [dem_ds.data] hands out, see [Mosaic.clip_statement]. *)
Definition floor_clip (t : dtype) (data : ndarray) : ndarray :=
  setitem_mask t data (less_scalar t data 0) 0.

(** What the masked assignment leaves at one pixel. *)
Definition clip_value (v : spec_float) : spec_float :=
  if SFltb v (S754_zero false) then S754_zero false else v.

End ValueTransform.

(** ** Mosaic Merger and Priority Compositor *)

Module Merge.
Import Numpy.

(** An input of the merge, already resampled to the pixel grid of the
    canvas: its array and the canvas position of its upper left pixel.  The
    offsets are integers, a tile may start before the canvas or end after
    it. *)
Record tile : Type := { row_off : Z; col_off : Z; tile_data : ndarray }.

(** What the tile holds at canvas pixel [(r, c)]; [None] outside of its
    footprint. *)
Definition tile_at (t : tile) (r c : nat) : option spec_float :=
  let i := Z.of_nat r - row_off t in
  let j := Z.of_nat c - col_off t in
  if (0 <=? i) && (0 <=? j) then pixel (tile_data t) (Z.to_nat i) (Z.to_nat j)
  else None.

(** The copy step of [method="first"]: a destination pixel is overwritten
    only where it is still missing and the tile holds a valid value there,
    [np.copyto(dest, new, where = dest_mask & ~new_mask)]. *)
Definition copy_first (dest : ndarray) (t : tile) : ndarray :=
  imap (fun r row =>
    imap (fun c d =>
      match tile_at t r c with
      | Some v => if isnan d && negb (isnan v) then v else d
      | None => d
      end) row) dest.

(** Modelled from the spec: [rioxarray.merge.merge_arrays] is a library
    function, its source is not part of the repository.  Following section
    4.3, the canvas starts out all missing and the inputs are painted onto it
    one after the other in the order of the list, each with the [copy_first]
    step; the notebook calls it once without [method] (whose default is
    ["first"]) and once with [method="first"].  [rows] and [cols] are the
    shape of the canvas fixed by [bounds] and [res]; reprojection and
    resampling have been done when the tiles were built. *)
Definition merge_arrays (srcs : list tile) (rows cols : nat) : ndarray :=
  foldl copy_first (full rows cols missing) srcs.

(** A raster that already has the geometry of the canvas. *)
Definition aligned (data : ndarray) : tile :=
  {| row_off := 0; col_off := 0; tile_data := data |}.

(** Cell 6: [merge_arrays([bathy_ds, dem_ds], method="first", ...)] *)
Definition combine (bathy_ds dem_ds : ndarray) (rows cols : nat) : ndarray :=
  merge_arrays [aligned bathy_ds; aligned dem_ds] rows cols.

(** The value of the first tile of [srcs] that holds a valid value at
    [(r, c)], and the missing value when there is none. *)
Fixpoint first_valid (srcs : list tile) (r c : nat) : spec_float :=
  match srcs with
  | [] => missing
  | t :: rest =>
      match tile_at t r c with
      | Some v => if isnan v then first_valid rest r c else v
      | None => first_valid rest r c
      end
  end.

End Merge.

(** ** Raster Writer *)

Module Writer.
Import Numpy.

(** The raster files on disk: every path holds the blocks (rows of stored
    values) written to it so far. *)
Abbreviation rasters := (gmap string ndarray).

(** The codec writes the blocks one after the other into the open file.  A
    write can be cut short (disk full, permission withdrawn, the kernel
    stopped): [quota] is the number of blocks that reach the file, more than
    the raster has when nothing cuts the write short.  A block that has
    reached the file stays there.  How the call ends for the notebook when it
    is cut short (an exception or a normal return) is the library's business
    and is not part of the state of the disk. *)
Fixpoint write_blocks (quota : nat) (raster_path : string)
    (blocks : ndarray) (disk : rasters) {struct blocks} : rasters :=
  match blocks with
  | [] => disk
  | b :: rest =>
      match quota with
      | O => disk
      | S q =>
          write_blocks q raster_path rest
            (alter (fun written => written ++ [b]) raster_path disk)
      end
  end.

(** [ds.rio.to_raster(raster_path, ..., dtype=dtype)]: the file is opened for
    writing at [raster_path] itself (created, or truncated when it exists),
    the data are cast to the storage dtype and written block by block.  The
    notebook gives no other path to the call, and neither cell renames a
    file. *)
Definition to_raster (dtype : dtype) (quota : nat) (raster_path : string)
    (data : ndarray) (disk : rasters) : rasters :=
  write_blocks quota raster_path (astype dtype data) (<[raster_path := []]> disk).

(** Cell 5: [bathy_path] *)
Definition bathy_path : string :=
  Config.base_dir +:+ "/merged/norway_40m_bathymetry.tif".

(** Cell 6: [merge_path] *)
Definition merge_path : string :=
  Config.base_dir +:+ "/merged/norway_40m_topobathymetry.tif".

(** Cell 6, "Save": the combined raster goes to [merge_path] as
    [dst_dtype]. *)
Definition save (quota : nat) (ds : ndarray) (disk : rasters) : rasters :=
  to_raster dst_dtype quota merge_path ds disk.

End Writer.

(** ** pandas: columns, rounding, the text of a tile *)

(** Cell 4 is made of pandas calls.  The definitions follow what the calls
    do with the arguments of the notebook: fields separated by one space, no
    header, no index, the default quote character, missing-value markers and
    line ends.  A column is int64, float64 or object. *)
Module Pandas.
Import Numpy.

(** The exceptions that the repair of a tile can raise. *)
Inductive error : Type :=
  | EmptyDataError | ParserError | KeyError | TypeError | ValueError
  | IntCastingNaNError | FileNotFoundError.

(** The outcome of a statement: a value, or a raised exception. *)
Inductive result (A : Type) : Type :=
  | Ok (a : A)
  | Raise (e : error).
Arguments Ok {A} a.
Arguments Raise {A} e.

#[global] Instance result_ret : MRet result := fun A a => Ok a.
#[global] Instance result_bind : MBind result := fun A B f r =>
  match r with Ok a => f a | Raise e => Raise e end.

(** A column has one dtype: [int64], [float64] or [object] (here always
    strings). *)
Inductive column : Type :=
  | IntCol (values : list Z)
  | FloatCol (values : list spec_float)
  | ObjCol (values : list string).

(** A frame read with [header=None]: the columns 0, 1, 2, ... *)
Abbreviation DataFrame := (list column).

Definition col_length (c : column) : nat :=
  match c with
  | IntCol l => length l
  | FloatCol l => length l
  | ObjCol l => length l
  end.

Definition int64_min : Z := - 2 ^ 63.
Definition int64_max : Z := 2 ^ 63 - 1.

(** [m / d] rounded to the nearest integer, a tie to the even one. *)
Definition half_even (m d : Z) : Z :=
  let q := m / d in
  match 2 * (m mod d) ?= d with
  | Lt => q
  | Gt => q + 1
  | Eq => if Z.even q then q else q + 1
  end.

(** [np.rint] on float64, the work of [round()] with no decimals: the
    nearest integral float, ties to even; the sign is kept, also on a zero
    result; infinities and NaN pass. *)
Definition rint (v : spec_float) : spec_float :=
  match v with
  | S754_finite s m e =>
      if 0 <=? e then v
      else
        match half_even (Zpos m) (2 ^ (- e)) with
        | Z0 => S754_zero s
        | n => binary_normalize 53 1024 (if s then - n else n) 0 false
        end
  | _ => v
  end.

(** The integer part of a finite float (rounding toward zero). *)
Definition trunc (v : spec_float) : Z :=
  match v with
  | S754_finite s m e =>
      let a := if 0 <=? e then Zpos m * 2 ^ e else Zpos m / 2 ^ (- e) in
      if s then - a else a
  | _ => 0
  end.

(** The cast of a finite float64 to int64; out of the range of int64 the
    conversion gives the smallest int64 (the "integer indefinite" of the
    x86-64 conversion instruction). *)
Definition to_int64 (v : spec_float) : Z :=
  let n := trunc v in
  if (int64_min <=? n) && (n <=? int64_max) then n else int64_min.

(** [Series.round()]: an [int64] column is left as it is, a [float64]
    column is rounded value by value, an [object] column raises. *)
Definition round (c : column) : result column :=
  match c with
  | IntCol l => Ok (IntCol l)
  | FloatCol l => Ok (FloatCol (rint <$> l))
  | ObjCol _ => Raise TypeError
  end.

(** [Series.astype(int)]: a [float64] column that holds NaN or an infinity
    raises, the values of any other one are cast. *)
Definition astype_int (c : column) : result column :=
  match c with
  | IntCol l => Ok (IntCol l)
  | FloatCol l =>
      if forallb isfinite l then Ok (IntCol (to_int64 <$> l))
      else Raise IntCastingNaNError
  | ObjCol _ => Raise ValueError
  end.

(** [df[k]] *)
Definition getitem (df : DataFrame) (k : nat) : result column :=
  match df !! k with
  | Some c => Ok c
  | None => Raise KeyError
  end.

(** The text of a float64 in a file: how [to_csv] prints a number and how
    [read_csv] reads one.  Both belong to the library; the development is
    parametric in them. *)
Record float_text : Type := {
  repr : spec_float -> string;
  of_string : string -> option spec_float
}.

(** The text of an int64: decimal digits, a minus sign in front of a
    negative one. *)
Definition token_of_int (n : Z) : string :=
  NilZero.string_of_int (Z.to_int n).

(** A field that reads as an int64: decimal digits after an optional
    sign. *)
Definition int_of_token (tok : string) : option Z :=
  n ← match tok with
      | String "+" digits => Z.of_uint <$> NilZero.uint_of_string digits
      | _ => Z.of_int <$> NilZero.int_of_string tok
      end;
  if (int64_min <=? n) && (n <=? int64_max) then Some n else None.

(** [s.split(sep)] for a separator of one character. *)
Fixpoint split (sep : ascii) (s : string) : list string :=
  match s with
  | EmptyString => [EmptyString]
  | String a s' =>
      if Ascii.eqb a sep then EmptyString :: split sep s'
      else
        match split sep s' with
        | tok :: toks => String a tok :: toks
        | [] => [String a EmptyString]
        end
  end.

(** [sep.join(toks)] *)
Fixpoint join (sep : ascii) (toks : list string) : string :=
  match toks with
  | [] => EmptyString
  | [tok] => tok
  | tok :: rest => tok +:+ String sep (join sep rest)
  end.

(** [s] does not hold the character [sep]. *)
Fixpoint free_of (sep : ascii) (s : string) : bool :=
  match s with
  | EmptyString => true
  | String a s' => negb (Ascii.eqb a sep) && free_of sep s'
  end.

Definition space : ascii := " "%char.
Definition newline : ascii := Ascii.Ascii false true false true false false false false.
Definition carriage_return : ascii := "013"%char.
Definition tab : ascii := "009"%char.
Definition quotechar : ascii := "034"%char.

(** *** The tokenizer of [read_csv] *)

(** The states of the tokenizer that the arguments of the notebook can
    reach (no comment character, no escape character, a delimiter of one
    character). *)
Inductive tokenizer_state : Type :=
  | START_RECORD | START_FIELD | IN_FIELD | IN_QUOTED_FIELD
  | QUOTE_IN_QUOTED_FIELD | EAT_CRNL | EAT_CRNL_NOP | WHITESPACE_LINE.

(** The tokenizer: its state, the characters of the field being read, the
    fields of the line being read, the lines read so far. *)
Record parser : Type := {
  state : tokenizer_state;
  word : string;
  fields : list string;
  lines : list (list string)
}.

Definition goto (st : tokenizer_state) (p : parser) : parser :=
  {| state := st; word := word p; fields := fields p; lines := lines p |}.

Definition push_char (c : ascii) (st : tokenizer_state) (p : parser) : parser :=
  {| state := st; word := word p +:+ String c EmptyString;
     fields := fields p; lines := lines p |}.

Definition end_field (st : tokenizer_state) (p : parser) : parser :=
  {| state := st; word := EmptyString;
     fields := fields p ++ [word p]; lines := lines p |}.

Definition end_line (p : parser) : parser :=
  {| state := START_RECORD; word := EmptyString;
     fields := []; lines := lines p ++ [fields p] |}.

(** A line that held nothing but tabs is dropped. *)
Definition skip_line (st : tokenizer_state) (p : parser) : parser :=
  {| state := st; word := EmptyString; fields := fields p; lines := lines p |}.

Definition in_field (c : ascii) (p : parser) : parser :=
  if Ascii.eqb c newline then end_line (end_field START_FIELD p)
  else if Ascii.eqb c carriage_return then end_field EAT_CRNL p
  else if Ascii.eqb c space then end_field START_FIELD p
  else push_char c IN_FIELD p.

Definition start_field (c : ascii) (p : parser) : parser :=
  if Ascii.eqb c quotechar then goto IN_QUOTED_FIELD p
  else in_field c p.

(** At the start of a line: an empty line is skipped ([skip_blank_lines]
    is on by default); a tab opens a line that is skipped when it holds
    nothing else. *)
Definition start_record (c : ascii) (p : parser) : parser :=
  if Ascii.eqb c newline then goto START_RECORD p
  else if Ascii.eqb c carriage_return then goto EAT_CRNL_NOP p
  else if Ascii.eqb c tab then push_char c WHITESPACE_LINE p
  else start_field c p.

(** One character.  A line ends at ["\n"], at ["\r\n"] and at a lone
    ["\r"]; between quotes every character belongs to the field, a doubled
    quote stands for one quote; a quote inside an unquoted field is an
    ordinary character. *)
Definition tokenize_char (p : parser) (c : ascii) : parser :=
  match state p with
  | START_RECORD => start_record c p
  | START_FIELD => start_field c p
  | IN_FIELD => in_field c p
  | IN_QUOTED_FIELD =>
      if Ascii.eqb c quotechar then goto QUOTE_IN_QUOTED_FIELD p
      else push_char c IN_QUOTED_FIELD p
  | QUOTE_IN_QUOTED_FIELD =>
      if Ascii.eqb c quotechar then push_char c IN_QUOTED_FIELD p
      else in_field c p
  | EAT_CRNL =>
      if Ascii.eqb c newline then end_line p
      else start_record c (end_line p)
  | EAT_CRNL_NOP =>
      if Ascii.eqb c newline || Ascii.eqb c space then goto START_RECORD p
      else start_record c (goto START_RECORD p)
  | WHITESPACE_LINE =>
      if Ascii.eqb c newline then skip_line START_RECORD p
      else if Ascii.eqb c carriage_return then skip_line EAT_CRNL_NOP p
      else if Ascii.eqb c tab then push_char c WHITESPACE_LINE p
      else in_field c p
  end.

Fixpoint tokenize_bytes (p : parser) (s : string) : parser :=
  match s with
  | EmptyString => p
  | String c s' => tokenize_bytes (tokenize_char p c) s'
  end.

(** The lines of fields of a text.  At the end of the text an open field
    and an open line are closed; a quote that is still open is an error. *)
Definition tokenize (content : string) : result (list (list string)) :=
  let p := tokenize_bytes
             {| state := START_RECORD; word := EmptyString; fields := []; lines := [] |}
             content in
  match state p with
  | IN_QUOTED_FIELD => Raise ParserError
  | START_FIELD | IN_FIELD | QUOTE_IN_QUOTED_FIELD =>
      Ok (lines (end_line (end_field START_RECORD p)))
  | EAT_CRNL => Ok (lines (end_line p))
  | START_RECORD | EAT_CRNL_NOP | WHITESPACE_LINE => Ok (lines p)
  end.

(** *** The columns of [read_csv] *)

(** The fields that stand for a missing value. *)
Definition na_values : list string :=
  [EmptyString; "#N/A"; "#N/A N/A"; "#NA"; "-1.#IND"; "-1.#QNAN"; "-NaN";
   "-nan"; "1.#IND"; "1.#QNAN"; "<NA>"; "N/A"; "NA"; "NULL"; "NaN"; "None";
   "n/a"; "nan"; "null"].

Definition is_na (tok : string) : bool := existsb (String.eqb tok) na_values.

(** A field of the file, read on its own. *)
Inductive cell : Type :=
  | CNa
  | CInt (n : Z)
  | CFloat (v : spec_float)
  | CStr (s : string).

Definition parse_cell (ft : float_text) (tok : string) : cell :=
  if is_na tok then CNa
  else
    match int_of_token tok with
    | Some n => CInt n
    | None =>
        match of_string ft tok with
        | Some v => CFloat v
        | None => CStr tok
        end
    end.

Definition as_int (c : cell) : option Z :=
  match c with CInt n => Some n | _ => None end.

Definition as_float (c : cell) : option spec_float :=
  match c with
  | CNa => Some missing
  | CInt n => Some (scalar float64 n)
  | CFloat v => Some v
  | CStr _ => None
  end.

(** In an [object] column a missing value is the empty string here. *)
Definition as_object (tok : string) : string :=
  if is_na tok then EmptyString else tok.

(** The dtype of a column is inferred from all of its fields: [int64] when
    every field is an integer, else [float64] when every field is a number
    or missing, else [object]. *)
Definition infer (ft : float_text) (toks : list string) : column :=
  let cells := parse_cell ft <$> toks in
  match mapM as_int cells with
  | Some l => IntCol l
  | None =>
      match mapM as_float cells with
      | Some l => FloatCol l
      | None => ObjCol (as_object <$> toks)
      end
  end.

(** [pd.read_csv(fpath, sep=" ", header=None)]: the first line fixes the
    number of columns, a shorter line is filled up with missing fields, a
    longer one is an error, a text without any line is one too. *)
Definition read_csv (ft : float_text) (content : string) : result DataFrame :=
  rows ← tokenize content;
  match rows with
  | [] => Raise EmptyDataError
  | first :: _ =>
      let n := length first in
      if forallb (fun row => length row <=? n)%nat rows then
        Ok ((fun j => infer ft ((fun row => default EmptyString (row !! j)) <$> rows))
              <$> seq 0 n)
      else Raise ParserError
  end.

(** *** The text of [to_csv] *)

(** The text of row [i] of a column; a missing value is the empty field. *)
Definition cell_text (ft : float_text) (c : column) (i : nat) : string :=
  match c with
  | IntCol l => from_option token_of_int EmptyString (l !! i)
  | FloatCol l =>
      from_option (fun v => if isnan v then EmptyString else repr ft v)
        EmptyString (l !! i)
  | ObjCol l => default EmptyString (l !! i)
  end.

Fixpoint double_quotes (s : string) : string :=
  match s with
  | EmptyString => EmptyString
  | String c s' =>
      if Ascii.eqb c quotechar then String c (String c (double_quotes s'))
      else String c (double_quotes s')
  end.

(** The writer quotes a field that holds the delimiter, the quote character
    or the line end ([QUOTE_MINIMAL]). *)
Definition quote_minimal (s : string) : string :=
  if free_of space s && free_of quotechar s && free_of newline s then s
  else String quotechar (double_quotes s +:+ String quotechar EmptyString).

Definition nrows (df : DataFrame) : nat :=
  match df with
  | [] => 0
  | c :: _ => col_length c
  end.

(** A row; a row that is one empty field is written as two quotes. *)
Definition line (ft : float_text) (df : DataFrame) (i : nat) : string :=
  match (fun c => cell_text ft c i) <$> df with
  | [EmptyString] => String quotechar (String quotechar (String newline EmptyString))
  | cells => join space (quote_minimal <$> cells) +:+ String newline EmptyString
  end.

(** [df.to_csv(out_csv, sep=" ", header=False, index=False)]: one line for
    every row, the fields separated by one space. *)
Definition to_csv (ft : float_text) (df : DataFrame) : string :=
  foldr String.append EmptyString (line ft df <$> seq 0 (nrows df)).

Definition in_int64 (n : Z) : Prop := int64_min <= n <= int64_max.

End Pandas.

(** ** Grid Repair *)

Module GridRepair.
Import Numpy Pandas.

(** Cell 4, the body of the loop on a frame:
    [df[0] = df[0].round().astype(int)], then the same for [df[1]]. *)
Definition repair_frame (df : DataFrame) : result DataFrame :=
  c0 ← getitem df 0;
  c0' ← round c0 ≫= astype_int;
  let df := <[0%nat := c0']> df in
  c1 ← getitem df 1;
  c1' ← round c1 ≫= astype_int;
  mret (<[1%nat := c1']> df).

(** The body of the loop on the text of a tile: read, round, write. *)
Definition repair_file (ft : float_text) (content : string) : result string :=
  df ← read_csv ft content;
  df' ← repair_frame df;
  mret (to_csv ft df').

(** [os.path.split(fpath)[1]] *)
Definition fname (fpath : string) : string :=
  List.last (split "/"%char fpath) EmptyString.

(** [os.path.join(base_dir, "rounded", fname)] *)
Definition out_csv (fpath : string) : string :=
  Config.base_dir +:+ "/rounded/" +:+ fname fpath.

(** Cell 4, the loop over [flist].  There is no [try] in it: an exception
    raised for one file ends the loop. *)
Fixpoint repair_tiles (ft : float_text) (flist : list string)
    (disk : gmap string string) : gmap string string * result unit :=
  match flist with
  | [] => (disk, Ok tt)
  | fpath :: rest =>
      match disk !! fpath with
      | None => (disk, Raise FileNotFoundError)
      | Some content =>
          match repair_file ft content with
          | Raise e => (disk, Raise e)
          | Ok text => repair_tiles ft rest (<[out_csv fpath := text]> disk)
          end
      end
  end.

(** The exact value of a finite float. *)
Definition SF2Q (v : spec_float) : Q :=
  match v with
  | S754_finite s m e =>
      let sm := if s then Zneg m else Zpos m in
      match e with
      | Zneg k => Qmake sm (2 ^ k)%positive
      | _ => inject_Z (sm * 2 ^ e)
      end
  | _ => 0%Q
  end.

(** [n] is an integer nearest to [v]. *)
Definition nearest_integer (v : spec_float) (n : Z) : Prop :=
  (Qabs (inject_Z n - SF2Q v) <= 1 # 2)%Q.

(** The integer that [round().astype(int)] aims for. *)
Definition rint_Z (v : spec_float) : Z :=
  match v with
  | S754_finite s m e =>
      let a := if 0 <=? e then Zpos m * 2 ^ e else half_even (Zpos m) (2 ^ (- e)) in
      if s then - a else a
  | _ => 0
  end.

(** A coordinate that can be rounded to an int64: a finite float64 whose
    integer part lies strictly inside the range of int64. *)
Definition roundable (v : spec_float) : Prop :=
  has_dtype float64 v /\ isfinite v = true /\ int64_min < trunc v < int64_max.

(** A coordinate column: integers, or floats that can be rounded. *)
Definition numeric (c : column) : Prop :=
  match c with
  | IntCol _ => True
  | FloatCol l => Forall roundable l
  | ObjCol _ => False
  end.

(** [c'] is the column [c] with every value replaced by a nearest
    integer. *)
Definition rounds_to (c c' : column) : Prop :=
  match c, c' with
  | IntCol l, IntCol l' => l' = l
  | FloatCol l, IntCol l' => Forall2 nearest_integer l l'
  | _, _ => False
  end.

End GridRepair.

(** ** A float text for the concrete runs *)

(** A float text in the manner of [float.hex()]: the sign, the mantissa in
    binary digits (lowest first) after ["0x"], then ["p"] and the exponent in
    decimal.  It is not the text of pandas; it stands in for it in the
    concrete runs of the repair loop, whose tiles hold integers and words
    only, so that no float is printed or read there. *)
Module HexText.
Import Pandas.

Fixpoint bits (m : positive) : string :=
  match m with
  | xH => "1"
  | xO p => String "0" (bits p)
  | xI p => String "1" (bits p)
  end.

(** Reads the digits up to the ["p"]; gives the mantissa and the rest. *)
Fixpoint read_bits (s : string) : option (positive * string) :=
  match s with
  | String "0" s' => prod_map xO id <$> read_bits s'
  | String "1" (String "p" rest) => Some (xH, rest)
  | String "1" s' => prod_map xI id <$> read_bits s'
  | _ => None
  end.

Definition unsigned_repr (v : spec_float) : string :=
  match v with
  | S754_nan => EmptyString
  | S754_zero _ => "0.0"
  | S754_infinity _ => "inf"
  | S754_finite _ m e =>
      "0x" +:+ bits m +:+ "p" +:+ NilZero.string_of_int (Z.to_int e)
  end.

Definition sign_of (v : spec_float) : bool :=
  match v with
  | S754_zero s | S754_infinity s | S754_finite s _ _ => s
  | S754_nan => false
  end.

Definition hex_repr (v : spec_float) : string :=
  if sign_of v then String "-" (unsigned_repr v) else unsigned_repr v.

Definition read_unsigned (s : bool) (text : string) : option spec_float :=
  match text with
  | "0.0" => Some (S754_zero s)
  | "inf" => Some (S754_infinity s)
  | String "0" (String "x" digits) =>
      '(m, rest) ← read_bits digits;
      d ← NilZero.int_of_string rest;
      Some (S754_finite s m (Z.of_int d))
  | _ => None
  end.

Definition hex_of_string (text : string) : option spec_float :=
  match text with
  | EmptyString => Some S754_nan
  | String "-" rest => read_unsigned true rest
  | _ => read_unsigned false text
  end.

Definition hex : float_text := {| repr := hex_repr; of_string := hex_of_string |}.

End HexText.

(** ** The two mosaics *)

Module Mosaic.
Import Numpy ValueTransform Merge.

(** An array of [rows] rows of [cols] pixels. *)
Definition has_shape (rows cols : nat) (a : ndarray) : Prop :=
  length a = rows /\ Forall (fun row => length row = cols) a.

(** The tile holds a valid value at canvas pixel [(r, c)]. *)
Definition covers (t : tile) (r c : nat) : bool :=
  match tile_at t r c with
  | Some v => negb (isnan v)
  | None => false
  end.

(** Cell 5, the data of the bathymetry mosaic: the tiles are merged, then
    "Convert depths to negative". *)
Definition bathymetry (t : dtype) (srcs : list tile) (rows cols : nat) : ndarray :=
  sign_inversion t (merge_arrays srcs rows cols).

(** A raster opened as in cell 6, with
    [rio.open_rasterio(path, mask_and_scale=True, cache=False)]: the dataset
    is a handle on the file.  With [cache=False] it keeps no array in memory;
    [band] is what the file decodes to. *)
Record dataset : Type := { band : ndarray }.

(** [ds.data]: the file is decoded at every access, each access hands out an
    array of its own. *)
Definition data (ds : dataset) : ndarray := band ds.

(** Cell 6, under the comment "Set negative values in topo data to zero":
    [dem_ds.data[dem_ds.data < 0] = 0].  The [.data] inside the brackets
    hands out one array, from which the mask is computed; the [.data] in
    front of the brackets hands out another one, and the zeros are written
    into that one.  The statement binds no name to it and does not store it
    back (cell 5 does: [bathy_ds.data = bathy_ds.data * -1]).  The outcome:
    the dataset after the statement, and the array that was modified and
    dropped. *)
Definition clip_statement (t : dtype) (dem_ds : dataset) : dataset * ndarray :=
  let mask := less_scalar t (data dem_ds) 0 in
  let modified := setitem_mask t (data dem_ds) mask 0 in
  (dem_ds, modified).

(** Cell 6, the data of the combined raster: the clip statement, then
    "Merge, using bathym data where available". *)
Definition topobathymetry (t : dtype) (bathy_ds dem_ds : dataset)
    (rows cols : nat) : ndarray :=
  let '(dem_ds, _) := clip_statement t dem_ds in
  combine (data bathy_ds) (data dem_ds) rows cols.

End Mosaic.

(** ** The folders of the tiles *)

Module Folders.
Import Numpy Pandas.

(** A path that [glob] gives for [search_path], [base_dir/raw/*.xyz]. *)
Definition raw_path (name : string) : string :=
  Config.base_dir +:+ "/raw/" +:+ name.

(** The same file name in the [rounded] folder. *)
Definition rounded_path (name : string) : string :=
  Config.base_dir +:+ "/rounded/" +:+ name.


(** The values of a float column are float64. *)
Definition float64_column (c : column) : Prop :=
  match c with
  | FloatCol l => Forall (has_dtype float64) l
  | _ => True
  end.

End Folders.

(** ** Texts of tiles *)

Module Tiles.
Import Pandas.

(** A text that holds line ends only. *)
Fixpoint blank (s : string) : bool :=
  match s with
  | EmptyString => true
  | String c s' =>
      (Ascii.eqb c newline || Ascii.eqb c carriage_return) && blank s'
  end.

(** A text free of the characters that mean something to the tokenizer. *)
Definition plain_chars (s : string) : bool :=
  free_of space s && free_of newline s && free_of carriage_return s
  && free_of quotechar s && free_of tab s.

(** A field that is written and read as one word. *)
Definition plain_word (tok : string) : bool :=
  match tok with
  | EmptyString => false
  | _ => plain_chars tok
  end.

(** A frame of [R] rows whose columns are all int64. *)
Definition int_frame (R : nat) (df : DataFrame) : Prop :=
  Forall (fun c => exists l, c = IntCol l /\ length l = R /\ Forall in_int64 l) df.

End Tiles.

(** ** The check of the raw tiles *)

(** Cell 3 opens every raw tile and prints the names of those that GDAL
    refuses as ungridded. *)
Module Check.
Import Pandas GridRepair.

(** What [rio.open_rasterio] does with a file: it opens it, it raises
    [RasterioIOError] with a message, or it raises something else. *)
Inductive opening : Type :=
  | Opened
  | RasterioIOError (msg : string)
  | OtherError (msg : string).

(** [needle in hay] *)
Fixpoint contains (needle hay : string) : bool :=
  String.prefix needle hay ||
  match hay with
  | EmptyString => false
  | String _ rest => contains needle rest
  end.

(** The exception is a [RasterioIOError] whose text holds
    ["Ungridded dataset"]. *)
Definition ungridded (o : opening) : bool :=
  match o with
  | RasterioIOError msg => contains "Ungridded dataset" msg
  | _ => false
  end.

(** The file opens, or raises what the handler prints. *)
Definition benign (o : opening) : bool :=
  match o with
  | Opened => true
  | e => ungridded e
  end.

(** Cell 3, the loop: the printed lines (after the heading) and the
    exception that left the loop, if one did.  The handler catches
    [RasterioIOError] only, prints the name for an ungridded file and raises
    again for any other message. *)
Fixpoint check_tiles (open_rasterio : string -> opening) (flist : list string)
    : list string * option opening :=
  match flist with
  | [] => ([], None)
  | fpath :: rest =>
      match open_rasterio fpath with
      | Opened => check_tiles open_rasterio rest
      | RasterioIOError msg =>
          if contains "Ungridded dataset" msg then
            let '(out, raised) := check_tiles open_rasterio rest in
            (("  " +:+ fname fpath) :: out, raised)
          else ([], Some (RasterioIOError msg))
      | OtherError msg => ([], Some (OtherError msg))
      end
  end.

(** The lines for the ungridded files of a list, in the order of the
    list. *)
Definition report (open_rasterio : string -> opening) (flist : list string)
    : list string :=
  (fun fpath => "  " +:+ fname fpath)
    <$> filter (fun fpath => ungridded (open_rasterio fpath) = true) flist.

End Check.

(** ** Example inputs *)

Module Examples.
Import Numpy Merge Writer Pandas GridRepair HexText.

(** The depths 12.5 and 0 and a missing pixel, as float32. *)
Definition depths_example : ndarray :=
  [[S754_finite false 13107200 (-20); S754_zero false; S754_nan]].

(** Two tiles on a canvas of one row and four columns: the first covers
    columns 0 and 1 and is missing at column 1, the second covers columns 1
    and 2; column 3 is covered by no tile. *)
Definition tile_a : tile :=
  {| row_off := 0; col_off := 0;
     tile_data := [[scalar float32 1; missing]] |}.
Definition tile_b : tile :=
  {| row_off := 0; col_off := 1;
     tile_data := [[scalar float32 7; scalar float32 8]] |}.

(** One pixel of bathymetry, -5, and one pixel of topography, 3. *)
Definition bathy_example : ndarray := [[scalar float32 (-5)]].
Definition dem_example : ndarray := [[scalar float32 3]].

(** A float64 raster of two blocks. *)
Definition two_blocks : ndarray := [[scalar float64 1]; [scalar float64 2]].

(** 16777217 = 2^24 + 1 is a float64 and is not a float32. *)
Definition wide_value : spec_float := scalar float64 16777217.

(** A tile of two records with integer fields only. *)
Definition int_tile : string :=
  "104 206 35" +:+ String newline ("144 206 36" +:+ String newline EmptyString).

(** A tile that starts with a header line: its columns are read as
    [object]. *)
Definition header_tile : string :=
  "x y z" +:+ String newline ("1 2 3" +:+ String newline EmptyString).

Definition path_a : string := Config.base_dir +:+ "/raw/a.xyz".
Definition path_b : string := Config.base_dir +:+ "/raw/b.xyz".
Definition path_c : string := Config.base_dir +:+ "/raw/c.xyz".

(** A [raw] folder of three tiles; the second one has the header line. *)
Definition raw_disk : gmap string string :=
  <[path_a := int_tile]> (<[path_b := header_tile]> (<[path_c := int_tile]> ∅)).

End Examples.

(** ** Further example inputs *)

Module Samples.
Import Numpy Merge Pandas GridRepair HexText Examples Check.

(** A topography pixel of -2, and a bathymetry pixel that is missing. *)
Definition dem_below : ndarray := [[scalar float32 (-2)]].
Definition bathy_missing : ndarray := [[missing]].

(** A third tile for the canvas of [tile_a] and [tile_b]; it covers
    column 1. *)
Definition tile_c : tile :=
  {| row_off := 0; col_off := 1; tile_data := [[scalar float32 9]] |}.

(** The record (10.4, 20.6, 35.2) as a frame. *)
Definition frame_example : DataFrame :=
  [FloatCol [ratio64 104 10]; FloatCol [ratio64 206 10]; FloatCol [ratio64 352 10]].

(** A frame whose x is missing, and one whose y is. *)
Definition frame_missing_x : DataFrame := [FloatCol [S754_nan]; IntCol [21]].
Definition frame_missing_y : DataFrame := [IntCol [10]; FloatCol [S754_nan]].

(** Blank lines, with the line ends of Windows and of Unix. *)
Definition blank_tile : string :=
  String carriage_return (String newline (String newline
  (String carriage_return (String newline EmptyString)))).

(** The frame of [int_tile]. *)
Definition int_frame_example : DataFrame :=
  [IntCol [104; 144]; IntCol [206; 206]; IntCol [35; 36]].

(** The tile [int_tile] with the line ends of Windows and a blank line,
    and a tile whose first field is quoted. *)
Definition crlf_tile : string :=
  "104 206 35" +:+ String carriage_return (String newline
  (String carriage_return (String newline
  ("144 206 36" +:+ String carriage_return (String newline EmptyString))))).
Definition quoted_tile : string :=
  String quotechar ("a b" +:+ String quotechar (" 2 3" +:+ String newline EmptyString)).

(** The first tile opens, the second is ungridded, the third is not a
    raster. *)
Definition open_example (fpath : string) : opening :=
  if String.eqb fpath path_a then Opened
  else if String.eqb fpath path_b then
    RasterioIOError "Ungridded dataset: At line 3, change of Y direction"
  else RasterioIOError "not recognized as being in a supported file format".

End Samples.

(** * Part II: lemmas and theorems *)

Import Numpy Examples.

(** ** Rounding in [spec_float] *)

Section Rounding.

Lemma iter_pos_nat {A} (f : A -> A) p x :
  SpecFloat.iter_pos f p x = Nat.iter (Pos.to_nat p) f x.
Proof.
  revert x. induction p as [p IH | p IH |]; intros x.
  - rewrite Pos2Nat.inj_xI. cbn [SpecFloat.iter_pos]. rewrite !IH.
    rewrite <- Nat.iter_add, <- Nat.iter_succ_r. f_equal. lia.
  - rewrite Pos2Nat.inj_xO. cbn [SpecFloat.iter_pos]. rewrite !IH.
    rewrite <- Nat.iter_add. f_equal. lia.
  - reflexivity.
Qed.

(** Shifting right a mantissa that ends in [n] zero bits loses nothing. *)
Lemma shr_1_iter n m :
  Nat.iter n shr_1 (Build_shr_record (Zpos (Nat.iter n xO m)) false false)
  = Build_shr_record (Zpos m) false false.
Proof.
  induction n as [|n IH]; [reflexivity|].
  rewrite Nat.iter_succ_r. exact IH.
Qed.

Lemma digits2_iter n m :
  Zpos (digits2_pos (Nat.iter n xO m)) = Zpos (digits2_pos m) + Z.of_nat n.
Proof.
  induction n as [|n IH]; [simpl; lia|].
  rewrite Nat.iter_succ. cbn [digits2_pos]. rewrite Pos2Z.inj_succ, IH. lia.
Qed.

Lemma mul_iter n m : (m * Nat.iter n xO 1 = Nat.iter n xO m)%positive.
Proof.
  induction n as [|n IH]; [apply Pos.mul_1_r|].
  rewrite !Nat.iter_succ. now rewrite Pos.mul_xO_r, IH.
Qed.

Lemma Zpos_iter n m : Zpos (Nat.iter n xO m) = Zpos m * 2 ^ Z.of_nat n.
Proof.
  induction n as [|n IH]; [simpl; lia|].
  rewrite Nat.iter_succ, Pos2Z.inj_xO, IH, Nat2Z.inj_succ, Z.pow_succ_r; lia.
Qed.

Variables prec emax : Z.

Lemma bounded_inv m e :
  bounded prec emax m e = true ->
  fexp prec emax (Zpos (digits2_pos m) + e) = e /\ e <= emax - prec.
Proof.
  unfold bounded, canonical_mantissa. intros Hb.
  apply andb_true_iff in Hb as [Hc He].
  apply Z.eqb_eq in Hc. apply Z.leb_le in He. auto.
Qed.

(** A canonical mantissa shifted left by [d] bits rounds back to itself,
    exactly. *)
Lemma round_aux_shifted s m e d :
  bounded prec emax m e = true ->
  binary_round_aux prec emax s (Zpos (Nat.iter d xO m)) (e - Z.of_nat d) loc_Exact
  = S754_finite s m e.
Proof.
  intros Hb. apply bounded_inv in Hb as [Hc He].
  unfold binary_round_aux, shr_fexp. cbn [Zdigits2 shr_record_of_loc].
  rewrite digits2_iter.
  replace (Z.pos (digits2_pos m) + Z.of_nat d + (e - Z.of_nat d))
    with (Z.pos (digits2_pos m) + e) by lia.
  rewrite Hc.
  replace (e - (e - Z.of_nat d)) with (Z.of_nat d) by lia.
  assert (Hshr :
    shr (Build_shr_record (Zpos (Nat.iter d xO m)) false false)
        (e - Z.of_nat d) (Z.of_nat d)
    = (Build_shr_record (Zpos m) false false, e)).
  { destruct d as [|d]; [simpl; f_equal; lia|].
    change (Z.of_nat (S d)) with (Zpos (Pos.of_succ_nat d)).
    cbn [shr]. rewrite iter_pos_nat, SuccNat2Pos.id_succ, shr_1_iter.
    f_equal. lia. }
  rewrite Hshr.
  cbn [shr_m loc_of_shr_record round_nearest_even Zdigits2 shr_record_of_loc].
  rewrite Hc, Z.sub_diag. cbn [shr shr_m].
  apply Z.leb_le in He. now rewrite He.
Qed.

Lemma round_aux_canonical s m e :
  bounded prec emax m e = true ->
  binary_round_aux prec emax s (Zpos m) e loc_Exact = S754_finite s m e.
Proof.
  intros Hb. generalize (round_aux_shifted s m e 0 Hb).
  cbn [Nat.iter nat_rect Z.of_nat]. now rewrite Z.sub_0_r.
Qed.

(** Conversion to a format leaves the values of that format alone. *)
Lemma binary_round_canonical s m e :
  bounded prec emax m e = true ->
  binary_round prec emax s m e = S754_finite s m e.
Proof.
  intros Hb. unfold binary_round, shl_align.
  destruct (bounded_inv _ _ Hb) as [Hc _]. rewrite Hc, Z.sub_diag.
  now apply round_aux_canonical.
Qed.

End Rounding.

(** ** Value Transform *)

Section ValueTransformFacts.
Import ValueTransform.

Variable t : dtype.

(** [-1] in the format [t]: the mantissa is a one followed by zeros. *)
Lemma scalar_minus_one :
  ieee_format t ->
  scalar t (-1)
  = S754_finite true (Nat.iter (Z.to_nat (prec t - 1)) xO 1%positive) (1 - prec t).
Proof.
  intros [Hp He]. unfold scalar, binary_normalize, binary_round.
  cbn [digits2_pos].
  assert (Hf : fexp (prec t) (emax t) (1 + 0) = 1 - prec t).
  { unfold fexp, emin. lia. }
  rewrite Hf. unfold shl_align.
  destruct (1 - prec t - 0) as [|d|d] eqn:Hd; try lia.
  rewrite Pos2Nat.inj_iter.
  replace (Z.to_nat (prec t - 1)) with (Pos.to_nat d) by lia.
  change (nat_rect (fun _ => positive) 1%positive (fun _ => xO) (Pos.to_nat d))
    with (Nat.iter (Pos.to_nat d) xO 1%positive).
  apply round_aux_canonical.
  unfold bounded, canonical_mantissa. rewrite digits2_iter. cbn [digits2_pos].
  apply andb_true_iff. split; [apply Z.eqb_eq | apply Z.leb_le; lia].
  unfold fexp, emin. lia.
Qed.

(** On the values of the format, multiplying by [-1] flips the sign bit and
    nothing else. *)
Lemma mul_minus_one v :
  ieee_format t -> has_dtype t v ->
  SFmul (prec t) (emax t) v (scalar t (-1)) = SFopp v.
Proof.
  intros Hf Hv. rewrite (scalar_minus_one Hf).
  destruct v as [s|s| |s m e]; cbn [SFmul SFopp];
    [now destruct s | now destruct s | reflexivity |].
  rewrite mul_iter.
  replace (e + (1 - prec t)) with (e - Z.of_nat (Z.to_nat (prec t - 1)))
    by (destruct Hf; lia).
  rewrite (round_aux_shifted _ _ _ _ _ _ Hv). now destruct s.
Qed.

Lemma SFopp_involutive v : SFopp (SFopp v) = v.
Proof. destruct v as [s|s| |s m e]; cbn; now rewrite ?negb_involutive. Qed.

Lemma SFopp_has_dtype v : has_dtype t v -> has_dtype t (SFopp v).
Proof. now destruct v. Qed.

Lemma sign_inversion_opp data :
  ieee_format t -> Forall (Forall (has_dtype t)) data ->
  sign_inversion t data = (fmap (M:=list) SFopp <$> data).
Proof.
  intros Hf Hd. unfold sign_inversion, mul_scalar.
  apply Forall_fmap_ext_1. eapply Forall_impl; [exact Hd|].
  intros row Hrow. apply Forall_fmap_ext_1. eapply Forall_impl; [exact Hrow|].
  intros v Hv. now apply mul_minus_one.
Qed.

(** C3. Sign inversion is self-inverse: on every array of a floating-point
    dtype, multiplying by -1 twice gives back the array, value for value
    (signs of zeros and infinities and NaN included). *)
Theorem sign_inversion_involutive data :
  ieee_format t -> Forall (Forall (has_dtype t)) data ->
  sign_inversion t (sign_inversion t data) = data.
Proof.
  intros Hf Hd. rewrite (sign_inversion_opp data Hf Hd).
  rewrite sign_inversion_opp; [|exact Hf|].
  - rewrite <- list_fmap_compose. rewrite <- (list_fmap_id data) at 2.
    apply list_fmap_ext. intros _ row _. cbn.
    rewrite <- list_fmap_compose. rewrite <- (list_fmap_id row) at 2.
    apply list_fmap_ext. intros _ v _. apply SFopp_involutive.
  - apply Forall_fmap. eapply Forall_impl; [exact Hd|].
    intros row Hrow. cbn. apply Forall_fmap. eapply Forall_impl; [exact Hrow|].
    intros v Hv. now apply SFopp_has_dtype.
Qed.

Lemma floor_clip_pointwise data :
  floor_clip t data = (fmap (M:=list) clip_value <$> data).
Proof.
  unfold floor_clip, setitem_mask, less_scalar.
  rewrite zip_with_fmap_r, zip_with_diag.
  apply list_fmap_ext. intros _ row _.
  rewrite zip_with_fmap_r, zip_with_diag. reflexivity.
Qed.

Lemma pixel_fmap (f : spec_float -> spec_float) (a : ndarray) r c :
  pixel (fmap (M:=list) f <$> a) r c = f <$> pixel a r c.
Proof.
  unfold pixel. rewrite list_lookup_fmap.
  destruct (a !! r) as [row|]; [cbn; apply list_lookup_fmap | reflexivity].
Qed.

(** C10. Both transforms keep a missing pixel missing: where the input holds
    NaN, the array after sign inversion holds NaN (NaN * -1 is NaN) and the
    array after floor clipping holds NaN (NaN < 0 is false, the pixel is not
    set to zero). *)
Theorem transforms_preserve_missing data r c :
  pixel data r c = Some missing ->
  pixel (sign_inversion t data) r c = Some missing /\
  pixel (floor_clip t data) r c = Some missing.
Proof.
  intros Hp. split.
  - unfold sign_inversion, mul_scalar. rewrite pixel_fmap, Hp. reflexivity.
  - rewrite floor_clip_pointwise, pixel_fmap, Hp. reflexivity.
Qed.

End ValueTransformFacts.

Lemma sign_inversion_involutive_witness :
  ValueTransform.sign_inversion float32
    (ValueTransform.sign_inversion float32 depths_example) = depths_example.
Proof.
  apply sign_inversion_involutive.
  - unfold ieee_format. cbn. lia.
  - repeat constructor.
Defined.

Lemma transforms_preserve_missing_witness :
  pixel (ValueTransform.sign_inversion float32 depths_example) 0 2 = Some missing /\
  pixel (ValueTransform.floor_clip float32 depths_example) 0 2 = Some missing.
Proof. apply transforms_preserve_missing. reflexivity. Defined.

(** ** Mosaic Merger and Priority Compositor *)

Section MergeFacts.
Import Merge.

Lemma pixel_full rows cols v r c :
  (r < rows)%nat -> (c < cols)%nat -> pixel (full rows cols v) r c = Some v.
Proof.
  intros Hr Hc. unfold pixel, full.
  rewrite (lookup_replicate_2 _ _ _ Hr). cbn.
  now apply lookup_replicate_2.
Qed.

(** One copy step, seen from one pixel of the canvas. *)
Lemma pixel_copy_first dest t r c :
  pixel (copy_first dest t) r c
  = (fun d => match tile_at t r c with
              | Some v => if isnan d && negb (isnan v) then v else d
              | None => d
              end) <$> pixel dest r c.
Proof.
  unfold pixel, copy_first. rewrite list_lookup_imap.
  destruct (dest !! r) as [row|]; [cbn; apply list_lookup_imap | reflexivity].
Qed.

(** The loop invariant of the merge: a pixel that holds a value keeps it, a
    pixel that is still missing gets the first valid value among the tiles
    that remain. *)
Lemma pixel_foldl_copy_first srcs : forall dest r c d,
  pixel dest r c = Some d ->
  pixel (foldl copy_first dest srcs) r c
  = Some (if isnan d then first_valid srcs r c else d).
Proof.
  induction srcs as [|t rest IH]; intros dest r c d Hd; cbn [foldl first_valid].
  - rewrite Hd. now destruct d.
  - erewrite IH; [|rewrite pixel_copy_first, Hd; reflexivity].
    destruct (tile_at t r c) as [v|]; [|reflexivity].
    destruct (isnan d) eqn:Ed; cbn [andb]; [|now rewrite Ed].
    destruct (isnan v) eqn:Ev; cbn [negb]; [now rewrite Ed | now rewrite Ev].
Qed.

Lemma pixel_merge_arrays srcs rows cols r c :
  (r < rows)%nat -> (c < cols)%nat ->
  pixel (merge_arrays srcs rows cols) r c = Some (first_valid srcs r c).
Proof.
  intros Hr Hc. unfold merge_arrays.
  now rewrite (pixel_foldl_copy_first srcs _ r c missing (pixel_full _ _ _ _ _ Hr Hc)).
Qed.

(** [first_valid] finds the tile that the claim describes. *)
Lemma first_valid_at srcs r c : forall i t v,
  srcs !! i = Some t -> tile_at t r c = Some v -> isnan v = false ->
  (forall j t' v', (j < i)%nat -> srcs !! j = Some t' ->
     tile_at t' r c = Some v' -> isnan v' = true) ->
  first_valid srcs r c = v.
Proof.
  induction srcs as [|t0 rest IH]; intros i t v Hi Ht Hv Hbefore; [done|].
  destruct i as [|i]; cbn in Hi; cbn [first_valid].
  - injection Hi as ->. now rewrite Ht, Hv.
  - assert (Hrest : first_valid rest r c = v).
    { apply (IH i t v Hi Ht Hv). intros j t' v' Hj Hl.
      apply (Hbefore (S j) t' v'); [lia | exact Hl]. }
    destruct (tile_at t0 r c) as [v0|] eqn:E0; [|exact Hrest].
    now rewrite (Hbefore O t0 v0 ltac:(lia) eq_refl E0).
Qed.

Lemma first_valid_uncovered srcs r c :
  (forall t, t ∈ srcs -> tile_at t r c = None) ->
  first_valid srcs r c = missing.
Proof.
  induction srcs as [|t0 rest IH]; intros Hnone; [done|].
  cbn [first_valid]. rewrite (Hnone t0) by apply list_elem_of_here.
  apply IH. intros t Ht. apply Hnone. now apply list_elem_of_further.
Qed.

(** C2. On every pixel of the canvas the merged value is the value of the
    first tile, in the order of the list, whose footprint covers the pixel
    with a non-missing value: the tiles before it hold nothing valid there
    and no later tile overwrites it.  A pixel covered by no tile is
    missing. *)
Theorem merge_arrays_first_wins srcs rows cols r c :
  (r < rows)%nat -> (c < cols)%nat ->
  (forall i t v,
     srcs !! i = Some t -> tile_at t r c = Some v -> isnan v = false ->
     (forall j t' v', (j < i)%nat -> srcs !! j = Some t' ->
        tile_at t' r c = Some v' -> isnan v' = true) ->
     pixel (merge_arrays srcs rows cols) r c = Some v) /\
  ((forall t, t ∈ srcs -> tile_at t r c = None) ->
   pixel (merge_arrays srcs rows cols) r c = Some missing).
Proof.
  intros Hr Hc. split.
  - intros i t v Hi Ht Hv Hbefore. rewrite pixel_merge_arrays by assumption.
    f_equal. now apply (first_valid_at srcs r c i t v).
  - intros Hnone. rewrite pixel_merge_arrays by assumption.
    f_equal. now apply first_valid_uncovered.
Qed.

Lemma tile_at_aligned data r c : tile_at (aligned data) r c = pixel data r c.
Proof.
  unfold tile_at, aligned. cbn [row_off col_off tile_data].
  rewrite !Z.sub_0_r, !Nat2Z.id.
  destruct (Z.leb_spec 0 (Z.of_nat r)); [|lia].
  destruct (Z.leb_spec 0 (Z.of_nat c)); [|lia]. reflexivity.
Qed.

(** C1. On every pixel of the canvas the combined raster holds the
    bathymetry value when that is not missing, else the topography value when
    that is not missing, else the missing value.  A bathymetry of -5 wins
    over a topography of 3. *)
Theorem combine_priority bathy_ds dem_ds rows cols r c :
  (r < rows)%nat -> (c < cols)%nat ->
  (forall b d,
     pixel bathy_ds r c = Some b -> pixel dem_ds r c = Some d ->
     pixel (combine bathy_ds dem_ds rows cols) r c
     = Some (if negb (isnan b) then b
             else if negb (isnan d) then d else missing)) /\
  (pixel bathy_ds r c = Some (scalar float32 (-5)) ->
   pixel dem_ds r c = Some (scalar float32 3) ->
   pixel (combine bathy_ds dem_ds rows cols) r c = Some (scalar float32 (-5))).
Proof.
  intros Hr Hc.
  assert (Hgen : forall b d,
     pixel bathy_ds r c = Some b -> pixel dem_ds r c = Some d ->
     pixel (combine bathy_ds dem_ds rows cols) r c
     = Some (if negb (isnan b) then b
             else if negb (isnan d) then d else missing)).
  { intros b d Hb Hd. unfold combine.
    rewrite pixel_merge_arrays by assumption. cbn [first_valid].
    rewrite !tile_at_aligned, Hb, Hd.
    destruct (isnan b); [|reflexivity]. now destruct (isnan d). }
  split; [exact Hgen|].
  intros Hb Hd. now rewrite (Hgen _ _ Hb Hd).
Qed.

End MergeFacts.

(** ** Raster Writer *)

Section WriterFacts.
Import Writer.

(** What a write leaves in the file: the blocks that reached it. *)
Lemma write_blocks_insert raster_path blocks : forall quota (disk : rasters) written,
  write_blocks quota raster_path blocks (<[raster_path := written]> disk)
  = <[raster_path := written ++ take quota blocks]> disk.
Proof.
  induction blocks as [|b rest IH]; intros quota disk written.
  - cbn [write_blocks]. now rewrite take_nil, app_nil_r.
  - destruct quota as [|q]; cbn [write_blocks take].
    + now rewrite app_nil_r.
    + rewrite alter_insert_eq, IH, <- app_assoc. reflexivity.
Qed.

Lemma to_raster_written t quota raster_path data (disk : rasters) :
  to_raster t quota raster_path data disk
  = <[raster_path := take quota (astype t data)]> disk.
Proof. unfold to_raster. now rewrite write_blocks_insert. Qed.

Lemma to_raster_completed t quota raster_path data (disk : rasters) :
  (length data <= quota)%nat ->
  to_raster t quota raster_path data disk = <[raster_path := astype t data]> disk.
Proof.
  intros Hq. rewrite to_raster_written, take_ge; [reflexivity|].
  unfold astype. now rewrite length_fmap.
Qed.

(** C8, as the notebook has it.  The writer works in place: the only path
    it touches is the output path, there is no temporary file and no rename;
    what is at the output path after the call is the part of the raster that
    reached the file, a partial file when the write was cut short. *)
Theorem to_raster_in_place t quota raster_path data (disk : rasters) :
  (forall p, p <> raster_path ->
     to_raster t quota raster_path data disk !! p = disk !! p) /\
  to_raster t quota raster_path data disk !! raster_path
    = Some (take quota (astype t data)).
Proof.
  rewrite to_raster_written. split.
  - intros p Hp. now apply lookup_insert_ne.
  - apply lookup_insert_eq.
Qed.

Lemma astype_value_has_dtype t v : has_dtype t v -> astype_value t v = v.
Proof.
  destruct v as [s|s| |s m e]; try reflexivity.
  intros Hv. now apply binary_round_canonical.
Qed.

(** A float32 value held as float64: the mantissa gets zero bits at its low
    end. *)
Lemma astype_value_widen s m e :
  bounded 24 128 m e = true ->
  exists d, astype_value float64 (S754_finite s m e)
            = S754_finite s (Nat.iter d xO m) (e - Z.of_nat d).
Proof.
  intros Hb. pose proof Hb as Hb'. apply bounded_inv in Hb' as [Hc He].
  cbn [astype_value prec emax float64]. unfold binary_round, shl_align.
  unfold fexp, emin in Hc.
  assert (Hd : 0 < Zpos (digits2_pos m)) by lia.
  assert (Hf : fexp 53 1024 (Zpos (digits2_pos m) + e) = Zpos (digits2_pos m) + e - 53).
  { unfold fexp, emin. lia. }
  rewrite Hf.
  destruct (Zpos (digits2_pos m) + e - 53 - e) as [|k|k] eqn:Hk; try lia.
  exists (Pos.to_nat k). unfold shift_pos. rewrite Pos2Nat.inj_iter.
  change (nat_rect (fun _ => positive) m (fun _ => xO) (Pos.to_nat k))
    with (Nat.iter (Pos.to_nat k) xO m).
  replace (Z.pos (digits2_pos m) + e - 53) with (e - Z.of_nat (Pos.to_nat k)) by lia.
  apply round_aux_canonical.
  unfold bounded, canonical_mantissa. rewrite digits2_iter.
  apply andb_true_iff. split; [apply Z.eqb_eq | apply Z.leb_le; lia].
  unfold fexp, emin. lia.
Qed.

Lemma astype_value_narrow s m e d :
  bounded 24 128 m e = true ->
  astype_value float32 (S754_finite s (Nat.iter d xO m) (e - Z.of_nat d))
  = S754_finite s m e.
Proof.
  intros Hb. pose proof Hb as Hb'. apply bounded_inv in Hb' as [Hc He].
  cbn [astype_value prec emax float32]. unfold binary_round, shl_align.
  rewrite digits2_iter.
  replace (Z.pos (digits2_pos m) + Z.of_nat d + (e - Z.of_nat d))
    with (Z.pos (digits2_pos m) + e) by lia.
  rewrite Hc.
  destruct (e - (e - Z.of_nat d)) as [|k|k] eqn:Hk; try lia;
    now apply round_aux_shifted.
Qed.

(** Widening a float32 to float64 and narrowing it again gives it back. *)
Lemma astype_value_widen_narrow w :
  has_dtype float32 w -> astype_value float32 (astype_value float64 w) = w.
Proof.
  destruct w as [s|s| |s m e]; try reflexivity.
  intros Hb. destruct (astype_value_widen s m e Hb) as [d ->].
  now apply astype_value_narrow.
Qed.

Lemma pixel_astype t (a : ndarray) r c :
  pixel (astype t a) r c = astype_value t <$> pixel a r c.
Proof.
  unfold astype, pixel. rewrite list_lookup_fmap.
  destruct (a !! r) as [row|]; [cbn; apply list_lookup_fmap | reflexivity].
Qed.

(** C9, as the notebook has it.  The cast to the storage dtype is applied
    to every pixel without any check: whatever the data, the file of a
    completed write holds at every pixel the data value converted to
    [dst_dtype].  A float32 value is stored as it is, whether the array
    holds it as float32 or widened to float64; nothing is said to the caller
    about the other values. *)
Theorem to_raster_casts_silently quota raster_path data (disk : rasters) :
  (length data <= quota)%nat ->
  exists file,
    to_raster dst_dtype quota raster_path data disk !! raster_path = Some file /\
    (forall r c, pixel file r c = astype_value dst_dtype <$> pixel data r c) /\
    (forall r c v, pixel data r c = Some v -> has_dtype float32 v ->
       pixel file r c = Some v) /\
    (forall r c w, has_dtype float32 w ->
       pixel data r c = Some (astype_value float64 w) -> pixel file r c = Some w).
Proof.
  intros Hq. exists (astype dst_dtype data).
  rewrite to_raster_completed by assumption. split; [apply lookup_insert_eq|].
  split; [intros r c; apply pixel_astype|]. split.
  - intros r c v Hp Hv. rewrite pixel_astype, Hp. cbn. f_equal.
    now apply astype_value_has_dtype.
  - intros r c w Hw Hp. rewrite pixel_astype, Hp. cbn. f_equal.
    now apply astype_value_widen_narrow.
Qed.

End WriterFacts.

(** ** Grid Repair *)

Section GridRepairFacts.
Import Pandas GridRepair HexText.

(** *** Integers as float64 *)

Lemma digits2_bound m :
  2 ^ (Zpos (digits2_pos m) - 1) <= Zpos m < 2 ^ Zpos (digits2_pos m).
Proof.
  induction m as [m IH|m IH|]; cbn [digits2_pos]; [| |cbn; lia].
  all: rewrite Pos2Z.inj_succ;
    replace (Z.succ (Z.pos (digits2_pos m)) - 1)
      with (Z.succ (Z.pos (digits2_pos m) - 1)) by lia;
    rewrite !Z.pow_succ_r by lia;
    revert IH;
    generalize (2 ^ (Z.pos (digits2_pos m) - 1)), (2 ^ Z.pos (digits2_pos m));
    intros a b IH; lia.
Qed.

Lemma digits2_le m k : 0 <= k -> Zpos m < 2 ^ k -> Zpos (digits2_pos m) <= k.
Proof.
  intros Hk Hm. destruct (digits2_bound m) as [Hlo _].
  destruct (Z_le_gt_dec (Zpos (digits2_pos m)) k) as [|Hgt]; [assumption|].
  assert (2 ^ k <= 2 ^ (Zpos (digits2_pos m) - 1)) by (apply Z.pow_le_mono_r; lia).
  lia.
Qed.

(** An integer below 2^53 is a float64, and reads back as itself. *)
Lemma binary_round_integer s p :
  Zpos p < 2 ^ 53 ->
  exists m e,
    binary_round 53 1024 s p 0 = S754_finite s m e /\
    bounded 53 1024 m e = true /\
    (if 0 <=? e then Zpos m * 2 ^ e else Zpos m / 2 ^ (- e)) = Zpos p.
Proof.
  intros Hp. pose proof (digits2_le p 53 ltac:(lia) Hp) as Hd.
  pose proof (Pos2Z.is_pos (digits2_pos p)) as Hd0.
  set (k := Z.to_nat (53 - Zpos (digits2_pos p))).
  assert (Hk : Z.of_nat k = 53 - Zpos (digits2_pos p)) by lia.
  exists (Nat.iter k xO p), (- Z.of_nat k).
  assert (Hb : bounded 53 1024 (Nat.iter k xO p) (- Z.of_nat k) = true).
  { unfold bounded, canonical_mantissa. rewrite digits2_iter.
    apply andb_true_iff. split; [apply Z.eqb_eq | apply Z.leb_le; lia].
    unfold fexp, emin. lia. }
  split; [|split; [exact Hb|]].
  - unfold binary_round.
    assert (Hf : fexp 53 1024 (Zpos (digits2_pos p) + 0) = - Z.of_nat k).
    { unfold fexp, emin. lia. }
    rewrite Hf. unfold shl_align.
    destruct (- Z.of_nat k - 0) as [|d|d] eqn:Ed; try lia.
    + assert (k = O) as Hk0 by lia. rewrite Hk0 in *. cbn [Nat.iter nat_rect] in *.
      change (- Z.of_nat 0) with 0 in Hb. now apply round_aux_canonical.
    + rewrite Pos2Nat.inj_iter.
      change (nat_rect (fun _ => positive) p (fun _ => xO) (Pos.to_nat d))
        with (Nat.iter (Pos.to_nat d) xO p).
      replace (Pos.to_nat d) with k by lia.
      now apply round_aux_canonical.
  - rewrite Zpos_iter. destruct (Z.leb_spec 0 (- Z.of_nat k)).
    + replace (- Z.of_nat k) with 0 by lia. replace (Z.of_nat k) with 0 by lia. cbn. lia.
    + rewrite Z.opp_involutive. apply Z.div_mul. apply Z.pow_nonzero; lia.
Qed.

Lemma half_even_bounds m d :
  0 <= m -> 0 < d ->
  m / d <= half_even m d <= m / d + 1 /\
  - d <= 2 * (half_even m d * d - m) <= d.
Proof.
  intros Hm Hd. unfold half_even.
  pose proof (Z.div_mod m d ltac:(lia)) as Hdm.
  pose proof (Z.mod_pos_bound m d Hd) as Hr.
  destruct (Z.compare_spec (2 * (m mod d)) d) as [E|E|E];
    [destruct (Z.even (m / d))| |]; nia.
Qed.

Lemma bounded_mantissa m e : bounded 53 1024 m e = true -> Zpos m < 2 ^ 53.
Proof.
  intros Hb. apply bounded_inv in Hb as [Hc _].
  destruct (digits2_bound m) as [_ Hhi].
  assert (Zpos (digits2_pos m) <= 53) by (unfold fexp, emin in Hc; lia).
  assert (2 ^ Zpos (digits2_pos m) <= 2 ^ 53) by (apply Z.pow_le_mono_r; lia).
  lia.
Qed.

Lemma trunc_normalize (s : bool) n :
  0 < n < 2 ^ 53 ->
  trunc (binary_normalize 53 1024 (if s then - n else n) 0 false)
    = (if s then - n else n) /\
  isfinite (binary_normalize 53 1024 (if s then - n else n) 0 false) = true.
Proof.
  intros Hn. destruct n as [|p|p]; try lia.
  assert (Hp : Zpos p < 2 ^ 53) by lia.
  destruct (binary_round_integer s p Hp) as (m & e & Hr & _ & Ht).
  destruct s; change (- Z.pos p) with (Z.neg p); cbn [binary_normalize]; rewrite Hr; cbn [trunc isfinite];
    rewrite Ht; auto.
Qed.

Lemma rint_finite v :
  has_dtype float64 v -> isfinite v = true ->
  trunc (rint v) = rint_Z v /\ isfinite (rint v) = true.
Proof.
  destruct v as [s|s| |s m e]; intros Hv Hf; try discriminate; [now split|].
  cbn [rint rint_Z]. destruct (Z.leb_spec 0 e) as [He|He].
  - split; [|reflexivity]. cbn [trunc].
    destruct (Z.leb_spec 0 e); [reflexivity | lia].
  - pose proof (bounded_mantissa m e Hv) as Hm.
    assert (Hd : 2 <= 2 ^ (- e)).
    { change 2 with (2 ^ 1) at 1. apply Z.pow_le_mono_r; lia. }
    assert (H0m : 0 <= Zpos m) by lia. assert (H0d : 0 < 2 ^ (- e)) by lia.
    destruct (half_even_bounds (Zpos m) (2 ^ (- e)) H0m H0d) as [[Hlo Hhi] _].
    assert (Hq : 0 <= Zpos m / 2 ^ (- e) < 2 ^ 52).
    { split; [apply Z.div_pos; lia|].
      apply Z.div_lt_upper_bound; [lia|]. change (2 ^ 53) with (2 * 2 ^ 52) in Hm. nia. }
    destruct (half_even (Zpos m) (2 ^ (- e))) as [|n|n] eqn:En; try lia.
    + split; [|reflexivity]. now destruct s.
    + apply trunc_normalize. change (2 ^ 53) with (2 * 2 ^ 52). lia.
Qed.

Lemma rint_Z_nearest v : nearest_integer v (rint_Z v).
Proof.
  unfold nearest_integer. apply Qabs_Qle_condition.
  destruct v as [s|s| |s m e]; try (cbn; split; discriminate).
  destruct e as [|k|k].
  - assert (E : (inject_Z (rint_Z (S754_finite s m 0)) - SF2Q (S754_finite s m 0) == 0)%Q).
    { cbn [rint_Z SF2Q Z.leb Z.compare]. destruct s; unfold Qeq, Qminus, Qplus, Qopp, inject_Z; cbn; lia. }
    rewrite E. split; discriminate.
  - assert (E : (inject_Z (rint_Z (S754_finite s m (Zpos k))) - SF2Q (S754_finite s m (Zpos k)) == 0)%Q).
    { cbn [rint_Z SF2Q Z.leb Z.compare].
      destruct s; unfold Qeq, Qminus, Qplus, Qopp, inject_Z; cbn [Qnum Qden]; lia. }
    rewrite E. split; discriminate.
  - cbn [rint_Z SF2Q Z.leb Z.compare]. change (- Z.neg k) with (Z.pos k).
    assert (H0m : 0 <= Zpos m) by lia. assert (H0d : 0 < 2 ^ Zpos k) by lia.
    destruct (half_even_bounds (Zpos m) (2 ^ Zpos k) H0m H0d) as [_ Hn].
    revert Hn. generalize (half_even (Z.pos m) (2 ^ Z.pos k)). intros n Hn.
    unfold Qle, Qminus, Qplus, Qopp, inject_Z. cbn [Qnum Qden].
    rewrite !Pos2Z.inj_mul, !Pos2Z.inj_pow.
    revert Hn. generalize (2 ^ Z.pos k). intros d Hn.
    destruct s; cbn [Z.opp]; change (Z.neg m) with (- Z.pos m); lia.
Qed.

Lemma to_int64_rint v : roundable v -> to_int64 (rint v) = rint_Z v /\ isfinite (rint v) = true.
Proof.
  intros (Hv & Hf & Hr). destruct (rint_finite v Hv Hf) as [Ht Hfin].
  split; [|exact Hfin]. unfold to_int64. rewrite Ht.
  change int64_min with (-9223372036854775808) in *.
  change int64_max with 9223372036854775807 in *.
  assert (Hb : -9223372036854775808 <= rint_Z v <= 9223372036854775807).
  { destruct v as [s|s| |s m e]; try discriminate; [cbn [rint_Z]; lia|].
    cbn [trunc rint_Z] in *. destruct (Z.leb_spec 0 e); [lia|].
    assert (H0m : 0 <= Zpos m) by lia. assert (H0d : 0 < 2 ^ (- e)) by (apply Z.pow_pos_nonneg; lia).
    destruct (half_even_bounds (Zpos m) (2 ^ (- e)) H0m H0d) as [Hn _].
    destruct s; lia. }
  destruct (Z.leb_spec (-9223372036854775808) (rint_Z v)),
    (Z.leb_spec (rint_Z v) 9223372036854775807); cbn [andb]; lia.
Qed.

Lemma round_astype_numeric c :
  numeric c ->
  exists c', round c ≫= astype_int = Ok c' /\ rounds_to c c' /\ col_length c' = col_length c.
Proof.
  destruct c as [l|l|l]; intros Hc; [| |destruct Hc].
  - exists (IntCol l). now cbn.
  - cbn [numeric] in Hc. exists (IntCol (rint_Z <$> l)).
    cbn [round mbind result_bind astype_int].
    assert (Hfin : forallb isfinite (rint <$> l) = true).
    { apply forallb_forall. intros v Hin. apply List.in_map_iff in Hin as (u & <- & Hu).
      rewrite Forall_forall in Hc. apply to_int64_rint, Hc. now apply list_elem_of_In. }
    rewrite Hfin. split; [|split].
    + f_equal. f_equal. rewrite <- list_fmap_compose.
      apply Forall_fmap_ext_1. eapply Forall_impl; [exact Hc|].
      intros v Hv. now apply to_int64_rint.
    + cbn. apply Forall2_fmap_r, Forall_Forall2_diag.
      eapply Forall_impl; [exact Hc|]. intros v _. apply rint_Z_nearest.
    + cbn. now rewrite length_fmap.
Qed.

(** *** Strings *)

Lemma append_nil s : EmptyString +:+ s = s.
Proof. reflexivity. Qed.

Lemma append_cons a s r : String a s +:+ r = String a (s +:+ r).
Proof. reflexivity. Qed.

Lemma append_assoc s1 s2 s3 : (s1 +:+ s2) +:+ s3 = s1 +:+ (s2 +:+ s3).
Proof.
  induction s1 as [|a s1 IH]; [reflexivity|].
  now rewrite !append_cons, IH.
Qed.

Lemma split_free sep s : free_of sep s = true -> split sep s = [s].
Proof.
  induction s as [|a s IH]; [reflexivity|]. cbn [free_of split].
  intros H. apply andb_true_iff in H as [Ha Hs].
  apply negb_true_iff in Ha. rewrite Ha, (IH Hs). reflexivity.
Qed.

Lemma split_nonempty sep s : split sep s <> [].
Proof.
  destruct s as [|a s]; [discriminate|]. cbn [split].
  destruct (Ascii.eqb a sep); [discriminate|]. now destruct (split sep s).
Qed.

Lemma in_int64_to_int64 v : in_int64 (to_int64 v).
Proof.
  unfold to_int64, in_int64.
  destruct (Z.leb_spec int64_min (trunc v)), (Z.leb_spec (trunc v) int64_max);
    cbn [andb]; try lia; unfold int64_min, int64_max; split; discriminate.
Qed.

Lemma round_astype_inv c c' :
  round c ≫= astype_int = Ok c' ->
  exists l, c' = IntCol l /\ col_length c' = col_length c /\
            (c = IntCol l \/ Forall in_int64 l).
Proof.
  destruct c as [l|l|l]; cbn [round mbind result_bind astype_int]; [| |discriminate].
  - intros [= <-]. exists l. auto.
  - destruct (forallb isfinite (rint <$> l)); [|discriminate].
    intros [= <-]. eexists. split; [reflexivity|]. split.
    + cbn. now rewrite !length_fmap.
    + right. apply Forall_fmap, Forall_forall. intros v _. apply in_int64_to_int64.
Qed.

(** C6. Grid Repair replaces every x and every y by a nearest integer and
    leaves the other columns (z) as they are; the record (10.4, 20.6, z)
    becomes (10, 21, z). *)
Theorem repair_frame_rounds :
  (forall df x y,
     df !! 0%nat = Some x -> df !! 1%nat = Some y -> numeric x -> numeric y ->
     exists df' x' y',
       repair_frame df = Ok df' /\
       df' !! 0%nat = Some x' /\ rounds_to x x' /\
       df' !! 1%nat = Some y' /\ rounds_to y y' /\
       (forall k, (2 <= k)%nat -> df' !! k = df !! k)) /\
  (forall z,
     repair_frame [FloatCol [ratio64 104 10]; FloatCol [ratio64 206 10]; FloatCol [z]]
     = Ok [IntCol [10]; IntCol [21]; FloatCol [z]]).
Proof.
  split; [|reflexivity].
  intros df x y H0 H1 Hx Hy.
  destruct (round_astype_numeric x Hx) as (x' & Ex & Hrx & _).
  destruct (round_astype_numeric y Hy) as (y' & Ey & Hry & _).
  assert (Hlen : (2 <= length df)%nat) by (apply lookup_lt_Some in H1; lia).
  exists (<[1%nat := y']> (<[0%nat := x']> df)), x', y'.
  split; [|repeat split; try assumption].
  - unfold repair_frame, getitem. rewrite H0. cbn [mbind result_bind]. rewrite Ex.
    cbn [mbind result_bind]. rewrite list_lookup_insert_ne, H1 by lia.
    cbn [mbind result_bind]. rewrite Ey. reflexivity.
  - rewrite list_lookup_insert_ne by lia. apply list_lookup_insert_eq. lia.
  - apply list_lookup_insert_eq. rewrite length_insert. lia.
  - intros k Hk. now rewrite !list_lookup_insert_ne by lia.
Qed.

(** *** The loop over the files *)

Lemma repair_tiles_app ft l1 l2 : forall disk,
  repair_tiles ft (l1 ++ l2) disk
  = match repair_tiles ft l1 disk with
    | (disk1, Ok _) => repair_tiles ft l2 disk1
    | (disk1, Raise e) => (disk1, Raise e)
    end.
Proof.
  induction l1 as [|fpath l1 IH]; intros disk; [reflexivity|].
  cbn [app repair_tiles]. destruct (disk !! fpath) as [content|]; [|reflexivity].
  destruct (repair_file ft content) as [text|e]; [apply IH | reflexivity].
Qed.

(** C7, as the notebook has it.  The loop has no handler: when the files
    before [fpath] have been repaired and the repair of [fpath] raises, the
    exception leaves the loop at once.  The disk is as the files before
    [fpath] left it; nothing is written for [fpath] nor for any file after
    it. *)
Theorem repair_tiles_stops ft before fpath after disk disk1 content e :
  repair_tiles ft before disk = (disk1, Ok tt) ->
  disk1 !! fpath = Some content ->
  repair_file ft content = Raise e ->
  repair_tiles ft (before ++ fpath :: after) disk = (disk1, Raise e).
Proof.
  intros Hbefore Hread Hraise. rewrite repair_tiles_app, Hbefore.
  cbn [repair_tiles]. now rewrite Hread, Hraise.
Qed.

End GridRepairFacts.

(** ** Concrete runs *)

Lemma combine_priority_witness :
  pixel (Merge.combine bathy_example dem_example 1 1) 0 0
  = Some (scalar float32 (-5)).
Proof.
  destruct (combine_priority bathy_example dem_example 1 1 0 0) as [_ H];
    [lia | lia |].
  apply H; reflexivity.
Defined.

Lemma merge_arrays_first_wins_witness :
  pixel (Merge.merge_arrays [tile_a; tile_b] 1 4) 0 1 = Some (scalar float32 7) /\
  pixel (Merge.merge_arrays [tile_a; tile_b] 1 4) 0 3 = Some missing.
Proof.
  destruct (merge_arrays_first_wins [tile_a; tile_b] 1 4 0 1) as [H1 _]; [lia | lia |].
  destruct (merge_arrays_first_wins [tile_a; tile_b] 1 4 0 3) as [_ H3]; [lia | lia |].
  split.
  - apply (H1 1%nat tile_b); [reflexivity | reflexivity | reflexivity |].
    intros j t' v' Hj Ht' Hv'. destruct j as [|j]; [|lia].
    injection Ht' as <-. injection Hv' as <-. reflexivity.
  - apply H3. intros t Ht.
    apply elem_of_cons in Ht as [-> | Ht]; [reflexivity|].
    apply list_elem_of_singleton in Ht as ->. reflexivity.
Defined.

Lemma repair_frame_rounds_witness :
  exists df' x' y',
    GridRepair.repair_frame
      [Pandas.FloatCol [ratio64 104 10]; Pandas.FloatCol [ratio64 206 10];
       Pandas.FloatCol [ratio64 352 10]] = Pandas.Ok df' /\
    df' !! 0%nat = Some x' /\
    GridRepair.rounds_to (Pandas.FloatCol [ratio64 104 10]) x' /\
    df' !! 1%nat = Some y' /\
    GridRepair.rounds_to (Pandas.FloatCol [ratio64 206 10]) y' /\
    (forall k, (2 <= k)%nat ->
       df' !! k = [Pandas.FloatCol [ratio64 104 10]; Pandas.FloatCol [ratio64 206 10];
                   Pandas.FloatCol [ratio64 352 10]] !! k).
Proof.
  apply (proj1 repair_frame_rounds); try reflexivity.
  - repeat constructor; vm_compute; congruence.
  - repeat constructor; vm_compute; congruence.
Defined.

Lemma repair_tiles_stops_witness :
  GridRepair.repair_tiles HexText.hex ([path_a] ++ path_b :: [path_c]) raw_disk
  = (<[GridRepair.out_csv path_a := int_tile]> raw_disk, Pandas.Raise Pandas.TypeError).
Proof.
  apply (repair_tiles_stops HexText.hex [path_a] path_b [path_c] raw_disk _ header_tile).
  - vm_compute. reflexivity.
  - vm_compute. reflexivity.
  - vm_compute. reflexivity.
Defined.

(** C7, the claim as it stands fails: the second tile of [raw_disk] raises,
    the third one is a good tile, and nothing is written for it. *)
Lemma repair_tiles_aborts :
  (GridRepair.repair_tiles HexText.hex [path_a; path_b; path_c] raw_disk).2
    = Pandas.Raise Pandas.TypeError /\
  raw_disk !! path_c = Some int_tile /\
  GridRepair.repair_file HexText.hex int_tile = Pandas.Ok int_tile /\
  (GridRepair.repair_tiles HexText.hex [path_a; path_b; path_c] raw_disk).1
    !! GridRepair.out_csv path_c = None.
Proof. vm_compute. repeat split; reflexivity. Qed.

(** C8, the claim as it stands fails: a write of a raster of two blocks
    that is cut short after the first one leaves that block at [merge_path],
    a file that is not the raster. *)
Lemma save_leaves_partial_file :
  Writer.save 1 two_blocks ∅ !! Writer.merge_path = Some [[scalar float32 1]] /\
  Writer.save 2 two_blocks ∅ !! Writer.merge_path
    = Some [[scalar float32 1]; [scalar float32 2]].
Proof. vm_compute. split; reflexivity. Qed.

(** C9, the claim as it stands fails: the float64 value 16777217 is written
    as 16777216 to a float32 file; the write is an ordinary completed write,
    nothing is raised. *)
Lemma narrowing_is_silent :
  has_dtype float64 wide_value /\
  (GridRepair.SF2Q wide_value == inject_Z 16777217)%Q /\
  Writer.to_raster dst_dtype 1 Writer.bathy_path [[wide_value]] ∅ !! Writer.bathy_path
    = Some [[scalar float32 16777216]] /\
  (GridRepair.SF2Q (scalar float32 16777216) == inject_Z 16777216)%Q.
Proof. repeat split; vm_compute; reflexivity. Qed.

Lemma to_raster_casts_silently_witness :
  exists file,
    Writer.to_raster dst_dtype 2 Writer.merge_path two_blocks ∅ !! Writer.merge_path
      = Some file /\
    (forall r c, pixel file r c = astype_value dst_dtype <$> pixel two_blocks r c) /\
    (forall r c v, pixel two_blocks r c = Some v -> has_dtype float32 v ->
       pixel file r c = Some v) /\
    (forall r c w, has_dtype float32 w ->
       pixel two_blocks r c = Some (astype_value float64 w) -> pixel file r c = Some w).
Proof. apply to_raster_casts_silently. cbn. lia. Defined.

(** ** More on the mosaics *)

Section MosaicFacts.
Import ValueTransform Merge Writer Mosaic.

Lemma has_shape_full rows cols v : has_shape rows cols (full rows cols v).
Proof.
  unfold has_shape, full. split; [apply length_replicate|].
  apply Forall_replicate, length_replicate.
Qed.

Lemma has_shape_copy_first rows cols dest t :
  has_shape rows cols dest -> has_shape rows cols (copy_first dest t).
Proof.
  intros [Hr Hc]. unfold has_shape, copy_first. split; [now rewrite length_imap|].
  apply Forall_forall. intros row Hrow.
  apply list_elem_of_lookup in Hrow as [r Hrow].
  rewrite list_lookup_imap in Hrow.
  destruct (dest !! r) as [row0|] eqn:E; [|discriminate]. cbn in Hrow.
  injection Hrow as <-. rewrite length_imap.
  rewrite Forall_forall in Hc. apply Hc. now apply list_elem_of_lookup_2 in E.
Qed.

Lemma has_shape_foldl rows cols srcs : forall dest,
  has_shape rows cols dest -> has_shape rows cols (foldl copy_first dest srcs).
Proof.
  induction srcs as [|t rest IH]; intros dest Hd; [exact Hd|].
  cbn [foldl]. apply IH. now apply has_shape_copy_first.
Qed.

Lemma has_shape_merge_arrays srcs rows cols :
  has_shape rows cols (merge_arrays srcs rows cols).
Proof. apply has_shape_foldl, has_shape_full. Qed.

(** X1. Whatever the tiles and wherever they lie, the merged raster has the
    shape of the canvas: [rows] rows of [cols] pixels. *)
Theorem merge_arrays_shape srcs rows cols :
  length (merge_arrays srcs rows cols) = rows /\
  Forall (fun row => length row = cols) (merge_arrays srcs rows cols).
Proof. apply has_shape_merge_arrays. Qed.

Lemma pixel_has_shape rows cols a r c :
  has_shape rows cols a -> (r < rows)%nat -> (c < cols)%nat -> is_Some (pixel a r c).
Proof.
  intros [Hr Hc] Hlr Hlc. unfold pixel.
  destruct (lookup_lt_is_Some_2 a r ltac:(lia)) as [row Hrow]. rewrite Hrow. cbn.
  apply lookup_lt_is_Some_2. rewrite Forall_forall in Hc.
  rewrite (Hc row); [exact Hlc|]. now apply list_elem_of_lookup_2 in Hrow.
Qed.

(** Arrays of one shape that agree on every pixel are equal. *)
Lemma ndarray_ext rows cols (a b : ndarray) :
  has_shape rows cols a -> has_shape rows cols b ->
  (forall r c, (r < rows)%nat -> (c < cols)%nat -> pixel a r c = pixel b r c) ->
  a = b.
Proof.
  intros [Hra Hca] [Hrb Hcb] Hpix. apply list_eq_same_length with rows; try assumption.
  intros r rowa rowb Hr Ha Hb.
  rewrite Forall_forall in Hca, Hcb.
  assert (La : length rowa = cols) by (apply Hca; now apply list_elem_of_lookup_2 in Ha).
  assert (Lb : length rowb = cols) by (apply Hcb; now apply list_elem_of_lookup_2 in Hb).
  apply list_eq_same_length with cols; try assumption.
  intros c x y Hc Hx Hy. specialize (Hpix r c Hr Hc).
  unfold pixel in Hpix. rewrite Ha, Hb in Hpix. cbn in Hpix. congruence.
Qed.

Lemma first_valid_app l1 l2 r c :
  first_valid (l1 ++ l2) r c
  = if isnan (first_valid l1 r c) then first_valid l2 r c else first_valid l1 r c.
Proof.
  induction l1 as [|t l1 IH]; [reflexivity|]. cbn [app first_valid].
  destruct (tile_at t r c) as [v|]; [|exact IH].
  destruct (isnan v) eqn:Ev; [exact IH | now rewrite Ev].
Qed.

(** X2. Tiles added at the end of the list only fill holes: a pixel that
    holds a valid value after the merge of [srcs] holds the same value after
    the merge of [srcs ++ more]. *)
Theorem merge_arrays_app_keeps srcs more rows cols r c v :
  pixel (merge_arrays srcs rows cols) r c = Some v -> isnan v = false ->
  pixel (merge_arrays (srcs ++ more) rows cols) r c = Some v.
Proof.
  intros Hp Hv.
  assert (Hr : (r < rows)%nat /\ (c < cols)%nat).
  { destruct (has_shape_merge_arrays srcs rows cols) as [Hlen Hall].
    unfold pixel in Hp. destruct (merge_arrays srcs rows cols !! r) as [row|] eqn:E; [|discriminate].
    cbn in Hp. split.
    - apply lookup_lt_Some in E. lia.
    - apply lookup_lt_Some in Hp. rewrite Forall_forall in Hall.
      rewrite (Hall row) in Hp; [exact Hp|]. now apply list_elem_of_lookup_2 in E. }
  destruct Hr as [Hr Hc].
  rewrite pixel_merge_arrays in * by assumption. injection Hp as Hp.
  now rewrite first_valid_app, Hp, Hv.
Qed.

Lemma merge_arrays_cons_merged l1 l2 rows cols :
  merge_arrays (aligned (merge_arrays l1 rows cols) :: l2) rows cols
  = merge_arrays (l1 ++ l2) rows cols.
Proof.
  apply (ndarray_ext rows cols); try apply has_shape_merge_arrays.
  intros r c Hr Hc. rewrite !pixel_merge_arrays by assumption. f_equal.
  rewrite first_valid_app. cbn [first_valid].
  rewrite tile_at_aligned, pixel_merge_arrays by assumption. reflexivity.
Qed.

(** X3. Merging in two stages is merging in one: a mosaic used as the first
    input of a second merge gives what one merge of all the inputs gives.  So
    the combination of cell 6, on the mosaic of the tiles and the topography,
    is the merge of the tiles followed by the topography. *)
Theorem merge_arrays_staged l1 l2 dem_ds rows cols :
  merge_arrays (aligned (merge_arrays l1 rows cols) :: l2) rows cols
    = merge_arrays (l1 ++ l2) rows cols /\
  combine (merge_arrays l1 rows cols) dem_ds rows cols
    = merge_arrays (l1 ++ [aligned dem_ds]) rows cols.
Proof. split; apply merge_arrays_cons_merged. Qed.

(** *** The order of the tiles *)

Lemma first_valid_filter srcs r c :
  first_valid srcs r c = first_valid (filter (fun t => covers t r c = true) srcs) r c.
Proof.
  induction srcs as [|t rest IH]; [reflexivity|].
  destruct (covers t r c) eqn:E.
  - rewrite filter_cons_True by assumption. cbn [first_valid].
    unfold covers in E. destruct (tile_at t r c) as [v|]; [|discriminate].
    apply negb_true_iff in E. now rewrite E.
  - rewrite filter_cons_False by (rewrite E; discriminate). cbn [first_valid].
    unfold covers in E. destruct (tile_at t r c) as [v|]; [|exact IH].
    apply negb_false_iff in E. now rewrite E.
Qed.

(** X4. The order of the tiles matters only where they overlap: when no
    canvas pixel is covered with a valid value by more than one tile, every
    reordering of the list gives the same mosaic. *)
Theorem merge_arrays_order srcs srcs' rows cols :
  srcs ≡ₚ srcs' ->
  (forall r c, (r < rows)%nat -> (c < cols)%nat ->
     (length (filter (fun t => covers t r c = true) srcs) <= 1)%nat) ->
  merge_arrays srcs rows cols = merge_arrays srcs' rows cols.
Proof.
  intros Hperm Hone.
  apply (ndarray_ext rows cols); try apply has_shape_merge_arrays.
  intros r c Hr Hc. rewrite !pixel_merge_arrays by assumption. f_equal.
  rewrite (first_valid_filter srcs), (first_valid_filter srcs').
  assert (Hp : filter (fun t => covers t r c = true) srcs
               ≡ₚ filter (fun t => covers t r c = true) srcs')
    by now apply filter_Permutation.
  specialize (Hone r c Hr Hc).
  destruct (filter (fun t => covers t r c = true) srcs) as [|t [|t' l]].
  - apply Permutation_nil_l in Hp. now rewrite Hp.
  - apply Permutation_singleton_l in Hp. now rewrite Hp.
  - cbn in Hone. lia.
Qed.

(** *** The clip statement and the combined raster *)


(** X6. In the combined raster of cell 6 the topography shows through as
    the file has it: at a pixel where the bathymetry is missing the combined
    raster holds the value of the topography dataset, a value below zero
    included. *)
Theorem topobathymetry_unclipped t bathy_ds dem_ds rows cols r c v :
  (r < rows)%nat -> (c < cols)%nat ->
  pixel (data bathy_ds) r c = Some missing ->
  pixel (data dem_ds) r c = Some v ->
  pixel (topobathymetry t bathy_ds dem_ds rows cols) r c = Some v.
Proof.
  intros Hr Hc Hb Hd. unfold topobathymetry, clip_statement, combine.
  rewrite pixel_merge_arrays by assumption. cbn [first_valid].
  rewrite !tile_at_aligned, Hb, Hd. cbn [isnan missing].
  now destruct v.
Qed.

Lemma pixel_elem (P : spec_float -> Prop) (a : ndarray) r c v :
  Forall (Forall P) a -> pixel a r c = Some v -> P v.
Proof.
  intros Ha Hp. unfold pixel in Hp.
  destruct (a !! r) as [row|] eqn:E; [|discriminate]. cbn in Hp.
  rewrite Forall_forall in Ha. specialize (Ha row).
  rewrite Forall_forall in Ha. apply Ha.
  - now apply list_elem_of_lookup_2 in E.
  - now apply list_elem_of_lookup_2 in Hp.
Qed.

Lemma first_valid_has_dtype t srcs r c :
  Forall (fun tile => Forall (Forall (has_dtype t)) (tile_data tile)) srcs ->
  has_dtype t (first_valid srcs r c).
Proof.
  induction 1 as [|tile rest Htile _ IH]; [reflexivity|]. cbn [first_valid].
  destruct (tile_at tile r c) as [v|] eqn:E; [|exact IH].
  destruct (isnan v); [exact IH|].
  unfold tile_at in E. destruct (_ && _); [|discriminate].
  now apply (pixel_elem _ _ _ _ _ Htile E).
Qed.

(** X7. The bathymetry mosaic of cell 5 holds, at every canvas pixel, the
    negated value of the first tile that is valid there, and the missing
    value where no tile is. *)
Theorem bathymetry_pixel t srcs rows cols r c :
  ieee_format t ->
  Forall (fun tile => Forall (Forall (has_dtype t)) (tile_data tile)) srcs ->
  (r < rows)%nat -> (c < cols)%nat ->
  pixel (bathymetry t srcs rows cols) r c = Some (SFopp (first_valid srcs r c)).
Proof.
  intros Hf Hsrcs Hr Hc. unfold bathymetry, sign_inversion, mul_scalar.
  rewrite pixel_fmap, pixel_merge_arrays by assumption. cbn [fmap option_fmap option_map].
  f_equal. apply mul_minus_one; [exact Hf|]. now apply first_valid_has_dtype.
Qed.

(** *** The missing mask in the written file *)

Lemma shr_1_nonneg mrs : 0 <= shr_m mrs -> 0 <= shr_m (shr_1 mrs).
Proof.
  destruct mrs as [m r s]. cbn [shr_m]. intros Hm.
  destruct m as [|[p|p|]|p]; cbn; lia.
Qed.

Lemma shr_nonneg mrs e n : 0 <= shr_m mrs -> 0 <= shr_m (shr mrs e n).1.
Proof.
  intros Hm. destruct n as [|p|p]; cbn [shr fst]; try exact Hm.
  rewrite iter_pos_nat. induction (Pos.to_nat p) as [|k IH]; [exact Hm|].
  cbn [Nat.iter nat_rect]. now apply shr_1_nonneg.
Qed.

Lemma shr_fexp_nonneg prec emax m e l :
  0 <= m -> 0 <= shr_m (shr_fexp prec emax m e l).1.
Proof.
  intros Hm. unfold shr_fexp. apply shr_nonneg.
  destruct l as [|[]]; exact Hm.
Qed.

Lemma round_nearest_even_nonneg m l : 0 <= m -> 0 <= round_nearest_even m l.
Proof. intros Hm. destruct l as [|[]]; cbn; try destruct (Z.even m); lia. Qed.

Lemma binary_round_aux_not_nan prec emax s m e l :
  0 <= m -> isnan (binary_round_aux prec emax s m e l) = false.
Proof.
  intros Hm. unfold binary_round_aux.
  pose proof (shr_fexp_nonneg prec emax m e l Hm) as H1.
  destruct (shr_fexp prec emax m e l) as [mrs' e']. cbn [fst] in H1.
  pose proof (shr_fexp_nonneg prec emax _ e' loc_Exact
                (round_nearest_even_nonneg _ (loc_of_shr_record mrs') H1)) as H2.
  destruct (shr_fexp prec emax _ e' loc_Exact) as [mrs'' e'']. cbn [fst] in H2.
  destruct (shr_m mrs'') as [|p|p]; [reflexivity| |lia].
  now destruct (e'' <=? emax - prec).
Qed.

Lemma isnan_astype_value t v : isnan (astype_value t v) = isnan v.
Proof.
  destruct v as [s|s| |s m e]; try reflexivity.
  cbn [astype_value isnan]. unfold binary_round.
  destruct (shl_align m e _) as [mz ez]. now apply binary_round_aux_not_nan.
Qed.

(** X8. The cast to the storage dtype keeps the missing mask: in the file
    of a completed write a pixel is NaN exactly where the data are NaN. *)
Theorem to_raster_keeps_mask t quota raster_path data (disk : rasters) :
  (length data <= quota)%nat ->
  exists file,
    to_raster t quota raster_path data disk !! raster_path = Some file /\
    forall r c, isnan <$> pixel file r c = isnan <$> pixel data r c.
Proof.
  intros Hq. exists (astype t data). split.
  - rewrite to_raster_completed by assumption. apply lookup_insert_eq.
  - intros r c. unfold astype. rewrite pixel_fmap.
    destruct (pixel data r c) as [v|]; [|reflexivity]. cbn.
    f_equal. apply isnan_astype_value.
Qed.

End MosaicFacts.

(** ** More on Grid Repair *)

Section RepairFacts.
Import Pandas GridRepair Folders Tiles.



Lemma round_astype_float64 c c' :
  float64_column c -> round c ≫= astype_int = Ok c' -> float64_column c'.
Proof. intros _ H. apply round_astype_inv in H as (l & -> & _). exact I. Qed.


Lemma round_astype_nonfinite l v :
  v ∈ l -> isfinite v = false ->
  round (FloatCol l) ≫= astype_int = Raise IntCastingNaNError.
Proof.
  intros Hin Hv. cbn [round astype_int mbind result_bind].
  assert (forallb isfinite (rint <$> l) = false) as ->; [|reflexivity].
  apply not_true_is_false. intros F. rewrite forallb_forall in F.
  assert (isfinite (rint v) = true) as H.
  { apply F, list_elem_of_In, list_elem_of_fmap. eauto. }
  destruct v; cbn in *; congruence.
Qed.

(** X10. A coordinate that is NaN or infinite makes the repair of the
    frame raise IntCastingNaNError, in the x column, and in the y column
    behind an integer x column. *)
Theorem repair_frame_nonfinite df l v :
  v ∈ l -> isfinite v = false ->
  (df !! 0%nat = Some (FloatCol l) -> repair_frame df = Raise IntCastingNaNError) /\
  (forall x, df !! 0%nat = Some (IntCol x) -> df !! 1%nat = Some (FloatCol l) ->
     repair_frame df = Raise IntCastingNaNError).
Proof.
  intros Hin Hv. unfold repair_frame, getitem. split.
  - intros E0. rewrite E0. cbn [mbind result_bind].
    now rewrite (round_astype_nonfinite l v Hin Hv).
  - intros x E0 E1. rewrite E0. cbn [mbind result_bind round astype_int].
    rewrite list_lookup_insert_ne, E1 by lia. cbn [mbind result_bind].
    now rewrite (round_astype_nonfinite l v Hin Hv).
Qed.

Lemma repair_frame_inv df df' :
  repair_frame df = Ok df' ->
  exists c0 c1 x y,
    df !! 0%nat = Some c0 /\ df !! 1%nat = Some c1 /\
    col_length c0 = length x /\ col_length c1 = length y /\
    df' = <[1%nat := IntCol y]> (<[0%nat := IntCol x]> df).
Proof.
  unfold repair_frame, getitem.
  destruct (df !! 0%nat) as [c0|] eqn:E0; cbn [mbind result_bind]; [|discriminate].
  destruct (round c0 ≫= astype_int) as [c0'|] eqn:R0; cbn [mbind result_bind];
    [|discriminate].
  destruct (<[0%nat:=c0']> df !! 1%nat) as [c1|] eqn:E1; cbn [mbind result_bind];
    [|discriminate].
  destruct (round c1 ≫= astype_int) as [c1'|] eqn:R1; cbn [mbind result_bind];
    [|discriminate].
  intros [= <-].
  apply round_astype_inv in R0 as (x & -> & L0 & _).
  apply round_astype_inv in R1 as (y & -> & L1 & _).
  rewrite list_lookup_insert_ne in E1 by lia.
  exists c0, c1, x, y. cbn [col_length] in L0, L1. auto.
Qed.

(** X11. A repaired frame has the columns and rows of the frame it comes
    from; its columns 0 and 1 are integer columns, every other column is
    untouched. *)
Theorem repair_frame_shape df df' :
  repair_frame df = Ok df' ->
  length df' = length df /\
  col_length <$> df' = col_length <$> df /\
  (exists x y, df' !! 0%nat = Some (IntCol x) /\ df' !! 1%nat = Some (IntCol y)) /\
  (forall k, (2 <= k)%nat -> df' !! k = df !! k).
Proof.
  intros H. apply repair_frame_inv in H as (c0 & c1 & x & y & E0 & E1 & L0 & L1 & ->).
  assert (Hlen : (2 <= length df)%nat) by (apply lookup_lt_Some in E1; lia).
  split; [now rewrite !length_insert|]. split; [|split].
  - rewrite !list_fmap_insert. cbn [col_length].
    rewrite (list_insert_id (col_length <$> df) 0 (length x))
      by (rewrite list_lookup_fmap, E0; cbn; now rewrite L0).
    apply list_insert_id. rewrite list_lookup_fmap, E1. cbn. now rewrite L1.
  - exists x, y. split.
    + rewrite list_lookup_insert_ne by lia. apply list_lookup_insert_eq. lia.
    + apply list_lookup_insert_eq. rewrite length_insert. lia.
  - intros k Hk. now rewrite !list_lookup_insert_ne by lia.
Qed.

(** X12. On frames the repair is idempotent, whatever the frame: repairing
    a repaired frame changes nothing. *)
Theorem repair_frame_idempotent df df' :
  repair_frame df = Ok df' -> repair_frame df' = Ok df'.
Proof.
  intros H. apply repair_frame_inv in H as (c0 & c1 & x & y & E0 & E1 & _ & _ & ->).
  assert (Hlen : (2 <= length df)%nat) by (apply lookup_lt_Some in E1; lia).
  assert (H0 : <[1%nat := IntCol y]> (<[0%nat := IntCol x]> df) !! 0%nat = Some (IntCol x)).
  { rewrite list_lookup_insert_ne by lia. apply list_lookup_insert_eq. lia. }
  assert (H1 : <[1%nat := IntCol y]> (<[0%nat := IntCol x]> df) !! 1%nat = Some (IntCol y)).
  { apply list_lookup_insert_eq. rewrite length_insert. lia. }
  unfold repair_frame, getitem. rewrite H0. cbn [mbind result_bind round astype_int].
  rewrite (list_insert_id _ _ _ H0), H1. cbn [mbind result_bind round astype_int].
  now rewrite (list_insert_id _ _ _ H1).
Qed.

(** *** Ties *)

Lemma half_even_tie m d :
  0 <= m -> 0 < d -> 2 * Z.abs (half_even m d * d - m) = d ->
  Z.even (half_even m d) = true.
Proof.
  intros Hm Hd. unfold half_even.
  pose proof (Z.div_mod m d ltac:(lia)) as Hdm.
  pose proof (Z.mod_pos_bound m d Hd) as Hr.
  destruct (Z.compare_spec (2 * (m mod d)) d) as [E|E|E].
  - intros _. destruct (Z.even (m / d)) eqn:Ev; [exact Ev|].
    rewrite Z.even_add, Ev. reflexivity.
  - intros H. nia.
  - intros H. nia.
Qed.

(** X13. A coordinate exactly halfway between two integers is rounded to
    the even one (2.5 to 2, 3.5 to 4), not upwards. *)
Theorem round_ties_to_even v :
  roundable v ->
  (Qabs (inject_Z (to_int64 (rint v)) - SF2Q v) == 1 # 2)%Q ->
  Z.even (to_int64 (rint v)) = true.
Proof.
  intros Hv. destruct (to_int64_rint v Hv) as [-> _].
  destruct v as [s|s| |s m e]; try reflexivity.
  destruct e as [|k|k].
  - intros H. exfalso. revert H. cbn [rint_Z SF2Q Z.leb Z.compare].
    unfold Qeq, Qabs, Qminus, Qplus, Qopp, inject_Z. cbn [Qnum Qden].
    destruct s; lia.
  - intros H. exfalso. revert H. cbn [rint_Z SF2Q Z.leb Z.compare].
    unfold Qeq, Qabs, Qminus, Qplus, Qopp, inject_Z. cbn [Qnum Qden].
    destruct s; lia.
  - cbn [rint_Z SF2Q Z.leb Z.compare]. change (- Z.neg k) with (Z.pos k).
    assert (H0m : 0 <= Zpos m) by lia. assert (H0d : 0 < 2 ^ Zpos k) by lia.
    pose proof (half_even_tie (Zpos m) (2 ^ Zpos k) H0m H0d) as Htie.
    revert Htie. generalize (half_even (Z.pos m) (2 ^ Z.pos k)). intros n Htie.
    unfold Qeq, Qabs, Qminus, Qplus, Qopp, inject_Z. cbn [Qnum Qden].
    rewrite !Pos2Z.inj_mul, !Pos2Z.inj_pow.
    revert Htie. generalize (2 ^ Z.pos k). intros d Htie H.
    destruct s; [rewrite Z.even_opp|]; apply Htie;
      change (Z.neg m) with (- Z.pos m) in H; lia.
Qed.

(** *** Paths *)

Lemma split_append sep s1 s2 :
  split sep (s1 +:+ String sep s2) = split sep s1 ++ split sep s2.
Proof.
  induction s1 as [|a s1 IH]; rewrite ?append_nil, ?append_cons; cbn [split].
  - now rewrite Ascii.eqb_refl.
  - rewrite IH. destruct (Ascii.eqb a sep); [reflexivity|].
    pose proof (split_nonempty sep s1) as Hne.
    now destruct (split sep s1).
Qed.

Lemma fname_join dir name :
  free_of "/" name = true -> fname (dir +:+ String "/" name) = name.
Proof.
  intros Hn. unfold fname. rewrite split_append, (split_free _ _ Hn).
  apply last_last.
Qed.

Lemma out_csv_raw_path name :
  free_of "/" name = true -> out_csv (raw_path name) = rounded_path name.
Proof.
  intros Hn. unfold out_csv, raw_path, rounded_path. do 2 f_equal.
  change ("/raw/" +:+ name) with ("/raw" +:+ String "/" name).
  rewrite <- append_assoc. now apply fname_join.
Qed.

Lemma out_csv_not_raw fpath name : out_csv fpath <> raw_path name.
Proof.
  unfold out_csv, raw_path. intros H. apply String.app_inj in H.
  rewrite !append_cons in H. discriminate.
Qed.

Lemma rounded_path_inj name name' : rounded_path name = rounded_path name' -> name = name'.
Proof.
  unfold rounded_path. intros H. apply String.app_inj in H.
  now apply String.app_inj in H.
Qed.

(** X15. The repaired tile keeps the file name of the raw tile and goes to
    the [rounded] folder. *)
Theorem out_csv_keeps_name name :
  free_of "/" name = true ->
  fname (raw_path name) = name /\ out_csv (raw_path name) = rounded_path name.
Proof.
  intros Hn. split; [|now apply out_csv_raw_path].
  unfold raw_path.
  change ("/raw/" +:+ name) with ("/raw" +:+ String "/" name).
  rewrite <- append_assoc. now apply fname_join.
Qed.

Lemma repair_tiles_other ft flist : forall disk p,
  Forall (fun fpath => out_csv fpath <> p) flist ->
  (repair_tiles ft flist disk).1 !! p = disk !! p.
Proof.
  induction flist as [|fpath rest IH]; intros disk p Hp; [reflexivity|].
  apply Forall_cons in Hp as [Hf Hrest]. cbn [repair_tiles].
  destruct (disk !! fpath) as [content|]; [|reflexivity].
  destruct (repair_file ft content) as [text|e]; [|reflexivity].
  rewrite IH by assumption. now apply lookup_insert_ne.
Qed.

(** X16. The loop never writes into the [raw] folder: whatever the list
    of files and however the loop ends, every raw tile is on disk as it
    was. *)
Theorem repair_tiles_keeps_raw ft flist disk name :
  (repair_tiles ft flist disk).1 !! raw_path name = disk !! raw_path name.
Proof.
  apply repair_tiles_other, Forall_forall. intros fpath _. apply out_csv_not_raw.
Qed.

(** X17. When every raw tile of the list can be repaired, the loop runs to
    its end and the [rounded] folder holds the repair of each of them. *)
Theorem repair_tiles_complete ft names : forall disk,
  NoDup names -> Forall (fun name => free_of "/" name = true) names ->
  (forall name, name ∈ names ->
     exists content text, disk !! raw_path name = Some content /\
                          repair_file ft content = Ok text) ->
  exists disk',
    repair_tiles ft (raw_path <$> names) disk = (disk', Ok tt) /\
    (forall name content text, name ∈ names ->
       disk !! raw_path name = Some content -> repair_file ft content = Ok text ->
       disk' !! rounded_path name = Some text).
Proof.
  induction names as [|n rest IH]; intros disk Hnd Hfree Hall.
  - exists disk. split; [reflexivity|]. intros name content text Hin.
    now apply not_elem_of_nil in Hin.
  - apply NoDup_cons in Hnd as [Hn Hnd]. apply Forall_cons in Hfree as [Hfn Hfree].
    destruct (Hall n (list_elem_of_here _ _)) as (content & text & Hread & Hrep).
    set (disk1 := <[rounded_path n := text]> disk).
    assert (Hraw : forall name, disk1 !! raw_path name = disk !! raw_path name).
    { intros name. apply lookup_insert_ne. rewrite <- (out_csv_raw_path n Hfn).
      apply out_csv_not_raw. }
    destruct (IH disk1 Hnd Hfree) as (disk' & Hrun & Hout).
    { intros name Hin. rewrite Hraw. apply Hall. now apply list_elem_of_further. }
    exists disk'. split.
    + cbn [fmap list_fmap repair_tiles]. rewrite Hread, Hrep, (out_csv_raw_path n Hfn).
      exact Hrun.
    + intros name content' text' Hin Hread' Hrep'.
      apply elem_of_cons in Hin as [-> | Hin].
      * assert (content' = content) as -> by congruence.
        assert (text' = text) as -> by congruence.
        replace disk' with (repair_tiles ft (raw_path <$> rest) disk1).1
          by now rewrite Hrun.
        rewrite repair_tiles_other; [apply lookup_insert_eq|].
        apply Forall_fmap, Forall_forall. intros name Hname. cbn.
        rewrite (out_csv_raw_path name) by (rewrite Forall_forall in Hfree; auto).
        intros E. apply rounded_path_inj in E. congruence.
      * apply (Hout name content' text' Hin); [|exact Hrep']. now rewrite Hraw.
Qed.

(** *** The tokenizer on blank texts and on plain words *)

Lemma tokenize_bytes_blank s : forall p,
  blank s = true ->
  state p = START_RECORD \/ state p = EAT_CRNL_NOP ->
  (state (tokenize_bytes p s) = START_RECORD \/ state (tokenize_bytes p s) = EAT_CRNL_NOP) /\
  lines (tokenize_bytes p s) = lines p.
Proof.
  induction s as [|c s IH]; intros p Hb Hp; [now split|].
  cbn [blank] in Hb. apply andb_true_iff in Hb as [Hc Hs].
  cbn [tokenize_bytes].
  assert (H : (state (tokenize_char p c) = START_RECORD \/
               state (tokenize_char p c) = EAT_CRNL_NOP) /\
              lines (tokenize_char p c) = lines p).
  { unfold tokenize_char, start_record.
    apply orb_true_iff in Hc as [Hc | Hc]; apply Ascii.eqb_eq in Hc; subst c;
      destruct Hp as [-> | ->]; cbn; auto. }
  destruct H as [Hst Hl]. destruct (IH _ Hs Hst) as [H1 H2].
  split; [exact H1 | congruence].
Qed.

(** X14. A tile without any record, empty or made of line ends only
    (["\n"], ["\r\n"] or ["\r"]), makes the repair raise EmptyDataError. *)
Theorem repair_file_blank ft content :
  blank content = true -> repair_file ft content = Raise EmptyDataError.
Proof.
  intros Hb. unfold repair_file, read_csv, tokenize.
  destruct (tokenize_bytes_blank content
              {| state := START_RECORD; word := EmptyString; fields := []; lines := [] |}
              Hb (or_introl eq_refl)) as [[-> | ->] Hl];
    cbn [mbind result_bind]; now rewrite Hl.
Qed.

Lemma append_nil_r s : s +:+ EmptyString = s.
Proof. induction s as [|a s IH]; [reflexivity|]. now rewrite append_cons, IH. Qed.

Lemma plain_chars_cons c s :
  plain_chars (String c s) = true ->
  (Ascii.eqb c space = false /\ Ascii.eqb c newline = false /\
   Ascii.eqb c carriage_return = false /\ Ascii.eqb c quotechar = false /\
   Ascii.eqb c tab = false) /\ plain_chars s = true.
Proof.
  unfold plain_chars. cbn [free_of]. rewrite !andb_true_iff, !negb_true_iff. tauto.
Qed.

(** Inside a field, plain characters are pushed. *)
Lemma tokenize_bytes_in_field s rest : forall w fs ls,
  plain_chars s = true ->
  tokenize_bytes {| state := IN_FIELD; word := w; fields := fs; lines := ls |} (s +:+ rest)
  = tokenize_bytes {| state := IN_FIELD; word := w +:+ s; fields := fs; lines := ls |} rest.
Proof.
  induction s as [|c s IH]; intros w fs ls Hs.
  - now rewrite append_nil, append_nil_r.
  - apply plain_chars_cons in Hs as [(H1 & H2 & H3 & H4 & H5) Hs].
    rewrite append_cons. cbn [tokenize_bytes].
    unfold tokenize_char, in_field, push_char. cbn [state word fields lines].
    rewrite H1, H2, H3. rewrite IH by assumption.
    now rewrite append_assoc, append_cons, append_nil.
Qed.

(** At the start of a line or of a field, a plain word opens a field. *)
Lemma tokenize_bytes_word tok rest st fs ls :
  plain_word tok = true -> st = START_RECORD \/ st = START_FIELD ->
  tokenize_bytes {| state := st; word := EmptyString; fields := fs; lines := ls |} (tok +:+ rest)
  = tokenize_bytes {| state := IN_FIELD; word := tok; fields := fs; lines := ls |} rest.
Proof.
  intros Htok Hst. destruct tok as [|c s]; [discriminate|].
  change (plain_chars (String c s) = true) in Htok.
  apply plain_chars_cons in Htok as [(H1 & H2 & H3 & H4 & H5) Hs].
  rewrite append_cons. cbn [tokenize_bytes].
  assert (E : tokenize_char {| state := st; word := EmptyString; fields := fs; lines := ls |} c
              = {| state := IN_FIELD; word := String c EmptyString; fields := fs; lines := ls |}).
  { unfold tokenize_char, start_record, start_field, in_field, push_char.
    destruct Hst as [-> | ->]; cbn [state word fields lines]; now rewrite ?H1, ?H2, ?H3, ?H4, ?H5. }
  rewrite E, tokenize_bytes_in_field by assumption. reflexivity.
Qed.

(** A line of plain words. *)
Lemma tokenize_bytes_line toks rest : forall st fs ls,
  toks <> [] -> Forall (fun tok => plain_word tok = true) toks ->
  st = START_RECORD \/ st = START_FIELD ->
  tokenize_bytes {| state := st; word := EmptyString; fields := fs; lines := ls |}
    ((join space toks +:+ String newline EmptyString) +:+ rest)
  = tokenize_bytes {| state := START_RECORD; word := EmptyString; fields := [];
                      lines := ls ++ [fs ++ toks] |} rest.
Proof.
  induction toks as [|tok toks IH]; intros st fs ls Hne Hall Hst; [done|].
  apply Forall_cons in Hall as [Htok Hall].
  destruct toks as [|tok' toks].
  - cbn [join]. rewrite append_assoc, tokenize_bytes_word by assumption.
    rewrite append_cons, append_nil. cbn [tokenize_bytes].
    unfold tokenize_char at 1. cbn [state]. unfold in_field, end_field, end_line.
    cbn [state word fields lines].
    change (Ascii.eqb newline newline) with true. cbv iota. reflexivity.
  - change (join space (tok :: tok' :: toks))
      with (tok +:+ String space (join space (tok' :: toks))).
    rewrite !append_assoc, tokenize_bytes_word by assumption.
    rewrite append_cons. cbn [tokenize_bytes].
    unfold tokenize_char at 1. cbn [state]. unfold in_field, end_field.
    cbn [state word fields lines].
    change (Ascii.eqb space newline) with false.
    change (Ascii.eqb space carriage_return) with false.
    change (Ascii.eqb space space) with true. cbv iota.
    rewrite <- append_assoc.
    rewrite (IH START_FIELD (fs ++ [tok]) ls); [|discriminate|exact Hall|now right].
    now rewrite <- app_assoc.
Qed.

(** A text of lines of plain words. *)
Lemma tokenize_bytes_text rows : forall ls,
  Forall (fun toks => toks <> [] /\ Forall (fun tok => plain_word tok = true) toks) rows ->
  tokenize_bytes {| state := START_RECORD; word := EmptyString; fields := []; lines := ls |}
    (foldr String.append EmptyString
       ((fun toks => join space toks +:+ String newline EmptyString) <$> rows))
  = {| state := START_RECORD; word := EmptyString; fields := []; lines := ls ++ rows |}.
Proof.
  induction rows as [|toks rows IH]; intros ls Hrows.
  - cbn. now rewrite app_nil_r.
  - apply Forall_cons in Hrows as [[Hne Htoks] Hrows].
    cbn [fmap list_fmap foldr].
    rewrite tokenize_bytes_line; [|assumption|assumption|now left].
    rewrite IH by assumption. cbn [app]. now rewrite <- app_assoc.
Qed.

Lemma tokenize_text rows :
  Forall (fun toks => toks <> [] /\ Forall (fun tok => plain_word tok = true) toks) rows ->
  tokenize (foldr String.append EmptyString
              ((fun toks => join space toks +:+ String newline EmptyString) <$> rows))
  = Ok rows.
Proof.
  intros Hrows. unfold tokenize. now rewrite tokenize_bytes_text.
Qed.

(** *** Decimal text of integers *)

Lemma uint_of_string_free sep s d :
  NilEmpty.uint_of_string s = Some d ->
  uint_of_char sep (Some Decimal.Nil) = None ->
  free_of sep s = true.
Proof.
  intros Hs Hsep. revert d Hs. induction s as [|a s IH]; [reflexivity|].
  intros d Hd. cbn [NilEmpty.uint_of_string] in Hd.
  destruct (NilEmpty.uint_of_string s) as [d'|] eqn:Es; [|discriminate].
  cbn [free_of]. rewrite (IH d' eq_refl), andb_true_r.
  apply negb_true_iff, Ascii.eqb_neq. intros ->.
  assert (uint_of_char sep (Some d') = None) as E.
  { destruct sep as [[] [] [] [] [] [] [] []]; cbn in Hsep |- *; congruence. }
  congruence.
Qed.

Lemma int_of_string_free sep s d :
  NilZero.int_of_string s = Some d ->
  uint_of_char sep (Some Decimal.Nil) = None -> sep <> "-"%char ->
  free_of sep s = true.
Proof.
  intros Hs Hsep Hminus. destruct s as [|a s]; [reflexivity|].
  unfold NilZero.int_of_string in Hs.
  destruct (Ascii.eqb_spec a "-"%char) as [-> | Ha].
  - cbn [free_of]. apply andb_true_iff. split.
    + apply negb_true_iff, Ascii.eqb_neq. congruence.
    + destruct (NilZero.uint_of_string s) as [u|] eqn:Eu; [|discriminate].
      unfold NilZero.uint_of_string in Eu. destruct s; [discriminate|].
      eapply uint_of_string_free; eauto.
  - destruct (NilZero.uint_of_string (String a s)) as [u|] eqn:Eu; [|discriminate].
    unfold NilZero.uint_of_string in Eu. eapply uint_of_string_free; eauto.
Qed.

Lemma to_int_proper n :
  Z.to_int n <> Decimal.Pos Decimal.Nil /\ Z.to_int n <> Decimal.Neg Decimal.Nil.
Proof.
  destruct n as [|p|p]; cbn; split; try discriminate;
    intros H; injection H; apply DecimalPos.Unsigned.to_uint_nonnil.
Qed.

Lemma int_of_string_token n :
  NilZero.int_of_string (token_of_int n) = Some (Z.to_int n).
Proof. unfold token_of_int. destruct (to_int_proper n). now apply NilZero.isi. Qed.

Lemma token_of_int_free sep n :
  uint_of_char sep (Some Decimal.Nil) = None -> sep <> "-"%char ->
  free_of sep (token_of_int n) = true.
Proof. intros H1 H2. eapply int_of_string_free; eauto. apply int_of_string_token. Qed.

Lemma token_of_int_nonempty n : token_of_int n <> EmptyString.
Proof.
  intros E. pose proof (int_of_string_token n) as H. rewrite E in H. discriminate.
Qed.

Lemma plain_word_token n : plain_word (token_of_int n) = true.
Proof.
  pose proof (token_of_int_nonempty n) as Hne.
  assert (H : plain_chars (token_of_int n) = true).
  { unfold plain_chars.
    rewrite !token_of_int_free by (reflexivity || discriminate). reflexivity. }
  destruct (token_of_int n); [done | exact H].
Qed.

Lemma is_na_token n : is_na (token_of_int n) = false.
Proof.
  pose proof (token_of_int_nonempty n) as Hne.
  pose proof (token_of_int_free "." n eq_refl ltac:(discriminate)) as Hdot.
  pose proof (token_of_int_free "#" n eq_refl ltac:(discriminate)) as Hhash.
  pose proof (token_of_int_free "N" n eq_refl ltac:(discriminate)) as HN.
  pose proof (token_of_int_free "n" n eq_refl ltac:(discriminate)) as Hn.
  pose proof (token_of_int_free "<" n eq_refl ltac:(discriminate)) as Hlt.
  revert Hne Hdot Hhash HN Hn Hlt. generalize (token_of_int n). intros tok.
  intros Hne Hdot Hhash HN Hn Hlt.
  unfold is_na. apply not_true_is_false. intros H.
  apply existsb_exists in H as (s & Hin & Hs). apply String.eqb_eq in Hs. subst s.
  unfold na_values in Hin. cbn [In] in Hin.
  repeat (destruct Hin as [<- | Hin]; [try done; discriminate|]). exact Hin.
Qed.

Lemma int_of_token_of_int n :
  in_int64 n -> int_of_token (token_of_int n) = Some n.
Proof.
  intros Hn. unfold int_of_token.
  pose proof (token_of_int_free "+" n eq_refl ltac:(discriminate)) as Hplus.
  pose proof (int_of_string_token n) as Hs.
  revert Hplus Hs. generalize (token_of_int n). intros tok Hplus Hs.
  assert (E : match tok with
              | String "+" digits => Z.of_uint <$> NilZero.uint_of_string digits
              | _ => Z.of_int <$> NilZero.int_of_string tok
              end = Some n).
  { destruct tok as [|a s]; [discriminate|].
    cbn [free_of] in Hplus. apply andb_true_iff in Hplus as [Ha _].
    rewrite Hs. cbn. rewrite DecimalZ.of_to.
    destruct a as [[] [] [] [] [] [] [] []]; try reflexivity; discriminate. }
  rewrite E. cbn [mbind option_bind]. unfold in_int64 in Hn.
  destruct (Z.leb_spec int64_min n), (Z.leb_spec n int64_max); cbn [andb]; (reflexivity || lia).
Qed.

Lemma parse_cell_int ft n : in_int64 n -> parse_cell ft (token_of_int n) = CInt n.
Proof. intros Hn. unfold parse_cell. now rewrite is_na_token, int_of_token_of_int. Qed.

Lemma infer_ints ft l : Forall in_int64 l -> infer ft (token_of_int <$> l) = IntCol l.
Proof.
  intros Hl. unfold infer. rewrite <- list_fmap_compose.
  rewrite (mapM_fmap_Forall_Some as_int (parse_cell ft ∘ token_of_int) l); [reflexivity|].
  eapply Forall_impl; [exact Hl|]. intros n Hn. cbn. now rewrite parse_cell_int.
Qed.

Lemma quote_minimal_plain tok : plain_word tok = true -> quote_minimal tok = tok.
Proof.
  intros H. unfold quote_minimal.
  assert (Hc : plain_chars tok = true) by (destruct tok; [discriminate | exact H]).
  unfold plain_chars in Hc. rewrite !andb_true_iff in Hc.
  destruct Hc as [[[[-> ->] _] ->] _]. reflexivity.
Qed.

Lemma fmap_seq_lookup {A B} (f : A -> B) (d : B) (l : list A) :
  (fun i => from_option f d (l !! i)) <$> seq 0 (length l) = f <$> l.
Proof.
  apply list_eq. intros i. rewrite !list_lookup_fmap.
  destruct (decide (i < length l)%nat) as [Hi|Hi].
  - rewrite lookup_seq_lt by assumption. cbn.
    destruct (lookup_lt_is_Some_2 l i Hi) as [x Hx]. now rewrite Hx.
  - rewrite lookup_seq_ge by lia. now rewrite lookup_ge_None_2 by lia.
Qed.

Lemma cell_text_int ft R c i :
  (exists l, c = IntCol l /\ length l = R /\ Forall in_int64 l) -> (i < R)%nat ->
  plain_word (cell_text ft c i) = true.
Proof.
  intros (l & -> & Hlen & _) Hi. cbn [cell_text].
  destruct (lookup_lt_is_Some_2 l i ltac:(lia)) as [n Hn]. rewrite Hn. cbn.
  apply plain_word_token.
Qed.

Lemma line_plain ft df i :
  df <> [] -> Forall (fun c => plain_word (cell_text ft c i) = true) df ->
  line ft df i
  = join space ((fun c => cell_text ft c i) <$> df) +:+ String newline EmptyString.
Proof.
  intros Hne Hall. unfold line.
  assert (Hq : quote_minimal <$> ((fun c => cell_text ft c i) <$> df)
               = (fun c => cell_text ft c i) <$> df).
  { rewrite <- list_fmap_compose. apply Forall_fmap_ext_1.
    eapply Forall_impl; [exact Hall|]. intros c Hc. cbn. now apply quote_minimal_plain. }
  destruct df as [|c df]; [done|]. apply Forall_cons in Hall as [Hc _].
  cbn [fmap list_fmap] in *.
  destruct (cell_text ft c i) as [|a s] eqn:E; [discriminate|].
  now rewrite Hq.
Qed.

Lemma read_to_csv_ints ft R df :
  (1 <= R)%nat -> (1 <= length df)%nat -> int_frame R df ->
  read_csv ft (to_csv ft df) = Ok df.
Proof.
  intros HR Hn Hok. unfold int_frame in Hok.
  set (cells := fun i : nat => (fun c => cell_text ft c i) <$> df).
  assert (Hne : df <> []) by (intros ->; cbn in Hn; lia).
  assert (Hrows : nrows df = R).
  { destruct df as [|c df]; [done|]. apply Forall_cons in Hok as [(l & -> & Hl & _) _]. exact Hl. }
  assert (Hcells : forall i, (i < R)%nat ->
            Forall (fun c => plain_word (cell_text ft c i) = true) df).
  { intros i Hi. eapply Forall_impl; [exact Hok|]. intros c Hc. now apply (cell_text_int ft R). }
  unfold read_csv, to_csv. rewrite Hrows.
  replace (line ft df <$> seq 0 R)
    with ((fun toks => join space toks +:+ String newline EmptyString) <$> (cells <$> seq 0 R)).
  2:{ rewrite <- list_fmap_compose. apply Forall_fmap_ext_1, Forall_forall.
      intros i Hi. apply elem_of_seq in Hi. cbn. symmetry.
      apply line_plain; [exact Hne | apply Hcells; lia]. }
  rewrite tokenize_text.
  2:{ apply Forall_fmap, Forall_forall. intros i Hi. apply elem_of_seq in Hi. cbn. split.
      - unfold cells. destruct df; [done | discriminate].
      - unfold cells. apply Forall_fmap. apply Hcells. lia. }
  cbn [mbind result_bind].
  assert (Hlen : forall i, length (cells i) = length df)
    by (intros i; unfold cells; apply length_fmap).
  destruct (cells <$> seq 0 R) as [|first rest] eqn:Erows.
  { apply fmap_nil_inv in Erows. destruct R; [lia | discriminate]. }
  assert (Hfirst : length first = length df).
  { assert (first ∈ cells <$> seq 0 R) as Hin by (rewrite Erows; apply list_elem_of_here).
    apply list_elem_of_fmap in Hin as (i & -> & _). apply Hlen. }
  rewrite Hfirst, <- Erows.
  assert (Hall : forallb (fun row => (length row <=? length df)%nat)
                   (cells <$> seq 0 R) = true).
  { apply forallb_forall. intros row Hin.
    apply list_elem_of_In, list_elem_of_fmap in Hin as (i & -> & _).
    rewrite Hlen. now apply Nat.leb_le. }
  rewrite Hall. f_equal.
  apply list_eq. intros j. rewrite list_lookup_fmap.
  destruct (df !! j) as [c|] eqn:Ej.
  - rewrite lookup_seq_lt by (apply lookup_lt_Some in Ej; lia).
    cbn [fmap option_fmap option_map Nat.add].
    f_equal. rewrite <- list_fmap_compose.
    rewrite Forall_forall in Hok.
    destruct (Hok c) as (l & -> & Hl & Hint); [now apply list_elem_of_lookup_2 in Ej|].
    rewrite <- (infer_ints ft l Hint). f_equal.
    rewrite <- (fmap_seq_lookup token_of_int EmptyString l), Hl.
    apply list_fmap_ext. intros _ i _. cbn. unfold cells.
    now rewrite list_lookup_fmap, Ej.
  - rewrite lookup_seq_ge by (apply lookup_ge_None in Ej; lia). reflexivity.
Qed.

(** Integer frames are fixed points of the repair. *)
Lemma repair_frame_ints R df :
  (2 <= length df)%nat -> int_frame R df -> repair_frame df = Ok df.
Proof.
  intros Hn Hok. unfold int_frame in Hok.
  destruct df as [|c0 [|c1 df]]; cbn in Hn; try lia.
  apply Forall_cons in Hok as [(l0 & -> & _) Hok].
  apply Forall_cons in Hok as [(l1 & -> & _) _].
  reflexivity.
Qed.

(** X18. A frame of int64 columns, with at least one column and one row,
    that is written with [to_csv] is read back by [read_csv] as the same
    frame, whatever the float text of the library. *)
Theorem to_csv_read_csv ft R df :
  (1 <= R)%nat -> (1 <= length df)%nat -> int_frame R df ->
  read_csv ft (to_csv ft df) = Ok df.
Proof. apply read_to_csv_ints. Qed.

(** X22. On tiles of integers Grid Repair is idempotent byte for byte: the
    text of a frame of int64 columns (at least two columns, at least one
    row) is repaired to itself, whatever the float text of the library. *)
Theorem repair_file_ints ft R df :
  (1 <= R)%nat -> (2 <= length df)%nat -> int_frame R df ->
  repair_file ft (to_csv ft df) = Ok (to_csv ft df).
Proof.
  intros HR Hn Hok. unfold repair_file.
  rewrite (read_to_csv_ints ft R) by (assumption || lia).
  cbn [mbind result_bind]. rewrite (repair_frame_ints R) by assumption. reflexivity.
Qed.

End RepairFacts.

(** ** The check of the raw tiles *)

Section CheckFacts.
Import Pandas GridRepair Check.

Lemma check_tiles_not_benign open_rasterio fpath rest :
  benign (open_rasterio fpath) = false ->
  check_tiles open_rasterio (fpath :: rest) = ([], Some (open_rasterio fpath)).
Proof.
  cbn [check_tiles]. destruct (open_rasterio fpath) as [|msg|msg]; cbn [benign ungridded].
  - discriminate.
  - now intros ->.
  - reflexivity.
Qed.

Lemma check_tiles_app open_rasterio l1 l2 :
  Forall (fun fpath => benign (open_rasterio fpath) = true) l1 ->
  check_tiles open_rasterio (l1 ++ l2)
  = (report open_rasterio l1 ++ (check_tiles open_rasterio l2).1,
     (check_tiles open_rasterio l2).2).
Proof.
  induction 1 as [|fpath rest Hf _ IH].
  { unfold report. rewrite filter_nil. cbn [app fmap list_fmap].
    now destruct (check_tiles open_rasterio l2). }
  cbn [app check_tiles]. unfold report in *.
  destruct (open_rasterio fpath) as [|msg|msg] eqn:E; cbn [benign ungridded] in Hf.
  - rewrite filter_cons_False by (rewrite E; discriminate). exact IH.
  - rewrite Hf, IH. rewrite filter_cons_True by (now rewrite E). reflexivity.
  - discriminate.
Qed.

(** X20. When every file of the list opens or is refused as ungridded, the
    check runs to its end and prints the names of the ungridded files, all of
    them, in the order of the list. *)
Theorem check_tiles_reports open_rasterio flist :
  Forall (fun fpath => benign (open_rasterio fpath) = true) flist ->
  check_tiles open_rasterio flist = (report open_rasterio flist, None).
Proof.
  intros Hb. rewrite <- (app_nil_r flist) at 1.
  rewrite check_tiles_app by assumption. cbn [check_tiles fst snd].
  now rewrite app_nil_r.
Qed.

(** X21. The first file that raises anything else than an ungridded
    [RasterioIOError] ends the check with that exception; the names of the
    ungridded files before it have been printed, no later file is opened. *)
Theorem check_tiles_reraises open_rasterio before fpath after :
  Forall (fun f => benign (open_rasterio f) = true) before ->
  benign (open_rasterio fpath) = false ->
  check_tiles open_rasterio (before ++ fpath :: after)
  = (report open_rasterio before, Some (open_rasterio fpath)).
Proof.
  intros Hb Hf. rewrite check_tiles_app by assumption.
  rewrite (check_tiles_not_benign _ _ _ Hf). cbn [fst snd]. now rewrite app_nil_r.
Qed.

End CheckFacts.

(** ** Concrete runs of the further properties *)

Section FurtherRuns.
Import Merge Mosaic Writer Pandas GridRepair Folders Tiles Check HexText Samples.

Lemma merge_arrays_app_keeps_witness :
  pixel (merge_arrays ([tile_b] ++ [tile_c]) 1 4) 0 1 = Some (scalar float32 7).
Proof. apply merge_arrays_app_keeps; reflexivity. Defined.

Lemma topobathymetry_unclipped_witness :
  pixel (topobathymetry float32 {| band := bathy_missing |} {| band := dem_below |} 1 1) 0 0
  = Some (scalar float32 (-2)).
Proof. apply topobathymetry_unclipped; (lia || reflexivity). Defined.

Lemma merge_arrays_order_witness :
  merge_arrays [tile_a; tile_b] 1 4 = merge_arrays [tile_b; tile_a] 1 4.
Proof.
  apply merge_arrays_order; [apply Permutation_swap|].
  intros r c Hr Hc.
  destruct r as [|r]; [|lia].
  destruct c as [|[|[|[|c]]]]; try lia; vm_compute; lia.
Defined.

Lemma bathymetry_pixel_witness :
  pixel (bathymetry float32 [tile_a; tile_b] 1 4) 0 1
  = Some (SFopp (first_valid [tile_a; tile_b] 0 1)).
Proof.
  apply bathymetry_pixel; [unfold ieee_format; cbn; lia | | lia | lia].
  repeat constructor.
Defined.

Lemma to_raster_keeps_mask_witness :
  exists file,
    to_raster float32 1 bathy_path depths_example ∅ !! bathy_path = Some file /\
    forall r c, isnan <$> pixel file r c = isnan <$> pixel depths_example r c.
Proof. apply to_raster_keeps_mask. cbn. lia. Defined.


Lemma repair_frame_nonfinite_witness :
  repair_frame frame_missing_x = Raise IntCastingNaNError /\
  repair_frame frame_missing_y = Raise IntCastingNaNError.
Proof.
  split.
  - apply (proj1 (repair_frame_nonfinite frame_missing_x [S754_nan] S754_nan
                    (list_elem_of_here _ _) eq_refl)); reflexivity.
  - apply (proj2 (repair_frame_nonfinite frame_missing_y [S754_nan] S754_nan
                    (list_elem_of_here _ _) eq_refl) [10]); reflexivity.
Defined.

Lemma repair_frame_shape_witness :
  length [IntCol [10]; IntCol [21]; FloatCol [ratio64 352 10]] = length frame_example /\
  col_length <$> [IntCol [10]; IntCol [21]; FloatCol [ratio64 352 10]]
    = col_length <$> frame_example /\
  (exists x y, [IntCol [10]; IntCol [21]; FloatCol [ratio64 352 10]] !! 0%nat = Some (IntCol x) /\
               [IntCol [10]; IntCol [21]; FloatCol [ratio64 352 10]] !! 1%nat = Some (IntCol y)) /\
  (forall k, (2 <= k)%nat ->
     [IntCol [10]; IntCol [21]; FloatCol [ratio64 352 10]] !! k = frame_example !! k).
Proof. apply repair_frame_shape. reflexivity. Defined.

Lemma repair_frame_idempotent_witness :
  repair_frame [IntCol [10]; IntCol [21]; FloatCol [ratio64 352 10]]
  = Ok [IntCol [10]; IntCol [21]; FloatCol [ratio64 352 10]].
Proof. apply (repair_frame_idempotent frame_example). reflexivity. Defined.

Lemma round_ties_to_even_witness :
  Z.even (to_int64 (rint (ratio64 5 2))) = true.
Proof.
  apply round_ties_to_even.
  - repeat split; vm_compute; congruence.
  - vm_compute. reflexivity.
Defined.

Lemma repair_file_blank_witness :
  repair_file hex blank_tile = Raise EmptyDataError.
Proof. apply repair_file_blank. reflexivity. Defined.

Lemma to_csv_read_csv_witness :
  read_csv hex (to_csv hex int_frame_example) = Ok int_frame_example.
Proof.
  apply (to_csv_read_csv hex 2); [lia | cbn; lia |].
  repeat constructor; (eexists; split; [reflexivity|]; split; [reflexivity|]);
    repeat constructor; vm_compute; congruence.
Defined.

Lemma repair_file_ints_witness :
  repair_file hex (to_csv hex int_frame_example) = Ok (to_csv hex int_frame_example).
Proof.
  apply (repair_file_ints hex 2); [lia | cbn; lia |].
  repeat constructor; (eexists; split; [reflexivity|]; split; [reflexivity|]);
    repeat constructor; vm_compute; congruence.
Defined.

Lemma out_csv_keeps_name_witness :
  fname (raw_path "a.xyz") = "a.xyz" /\ out_csv (raw_path "a.xyz") = rounded_path "a.xyz".
Proof. apply out_csv_keeps_name. reflexivity. Defined.

Lemma repair_tiles_complete_witness :
  exists disk',
    repair_tiles hex (raw_path <$> ["a.xyz"; "c.xyz"]) raw_disk = (disk', Ok tt) /\
    (forall name content text, name ∈ ["a.xyz"; "c.xyz"] ->
       raw_disk !! raw_path name = Some content -> repair_file hex content = Ok text ->
       disk' !! rounded_path name = Some text).
Proof.
  apply repair_tiles_complete.
  - apply NoDup_cons. split; [|apply NoDup_singleton].
    intros H. apply list_elem_of_singleton in H. discriminate.
  - repeat constructor.
  - intros name Hin. exists int_tile, int_tile.
    apply elem_of_cons in Hin as [-> | Hin];
      [|apply list_elem_of_singleton in Hin as ->]; split; vm_compute; reflexivity.
Defined.

(** The tokenizer on the line ends of Windows, on a blank line and on a
    quoted field. *)
Lemma read_csv_crlf :
  read_csv hex crlf_tile = Ok [IntCol [104; 144]; IntCol [206; 206]; IntCol [35; 36]] /\
  read_csv hex int_tile = Ok [IntCol [104; 144]; IntCol [206; 206]; IntCol [35; 36]].
Proof. vm_compute. split; reflexivity. Qed.

Lemma read_csv_quoted :
  read_csv hex quoted_tile = Ok [ObjCol ["a b"]; IntCol [2]; IntCol [3]] /\
  to_csv hex [ObjCol ["a b"]; IntCol [2]; IntCol [3]] = quoted_tile.
Proof. vm_compute. split; reflexivity. Qed.

Lemma check_tiles_reports_witness :
  check_tiles open_example [path_a; path_b] = (report open_example [path_a; path_b], None).
Proof. apply check_tiles_reports. repeat constructor. Defined.

Lemma check_tiles_reraises_witness :
  check_tiles open_example ([path_a; path_b] ++ path_c :: [path_a])
  = (report open_example [path_a; path_b], Some (open_example path_c)).
Proof. apply check_tiles_reraises; [repeat constructor | reflexivity]. Defined.

End FurtherRuns.
